(** * string_calculator.py: tokenizer, shunting-yard converter and RPN evaluator

    A shallow embedding of [src/string_calculator.py].

    - A Python [str] is a [string]; a character [c : ascii] stands for the code
      point of the same number, so the texts of the model are those of code
      points U+0000 to U+00FF.
    - A Python [float] is a binary64 number, [PrimFloat.float].
    - A raised exception is an explicit result, [Raise e].
    - A Python list used as a stack ([append], [pop()], [stack[-1]]) is a [list]
      whose head is the top of the stack; its element of index 0 is the last one
      of the [list] ([bottom]).  A list that is only appended to ([tokens],
      [output]) is a [list] in the order of the Python list. *)

From Stdlib Require Import Bool Arith ZArith Lia List Ascii String.
From Stdlib Require Import Floats.
From Stdlib Require Import Permutation.
Import ListNotations.

Local Open Scope string_scope.
Local Open Scope list_scope.
Local Open Scope nat_scope.

(** ** Exceptions and results *)

Inductive exception : Type :=
| ValueError (msg : string)
| IndexError (msg : string)
| ZeroDivisionError (msg : string)
| OverflowError (msg : string).

Inductive result (A : Type) : Type :=
| Ok (a : A)
| Raise (e : exception).

Arguments Ok {A} a.
Arguments Raise {A} e.

Definition bind {A B : Type} (r : result A) (k : A -> result B) : result B :=
  match r with
  | Ok a => k a
  | Raise e => Raise e
  end.

Notation "x <- r ;; k" := (bind r (fun x => k))
  (at level 61, r at next level, right associativity).
Notation "' p <- r ;; k" := (bind r (fun x => let 'p := x in k))
  (at level 61, p pattern, r at next level, right associativity).

(** ** Characters *)

Definition code (c : ascii) : nat := nat_of_ascii c.

Definition is_ascii_digit (c : ascii) : bool :=
  (48 <=? code c) && (code c <=? 57).

(** [str.isdigit()] of a one-character string: the ASCII digits and, among the
    code points up to U+00FF, the superscripts two, three and one. *)
Definition isdigit (c : ascii) : bool :=
  is_ascii_digit c || (code c =? 178) || (code c =? 179) || (code c =? 185).

(** [c in s] for a one-character string [c]. *)
Fixpoint char_in (c : ascii) (s : string) : bool :=
  match s with
  | EmptyString => false
  | String d s' => Ascii.eqb c d || char_in c s'
  end.

Definition str (c : ascii) : string := String c EmptyString.

(** ** The builtin [float(token)]

    [float] accepts, between optional white space, an optional sign followed by
    [inf], [infinity] or [nan] in any case, or by a decimal numeral: digits with
    at most one point and at least one digit, then an optional exponent.  An
    underscore may stand between two digits.  The value is the binary64 number
    nearest to the numeral (ties to even). *)

Definition float_space (c : ascii) : bool :=
  ((9 <=? code c) && (code c <=? 13)) || (code c =? 32)
  || (code c =? 133) || (code c =? 160).

Fixpoint lstrip (s : string) : string :=
  match s with
  | String c s' => if float_space c then lstrip s' else s
  | EmptyString => EmptyString
  end.

Fixpoint rstrip (s : string) : string :=
  match s with
  | String c s' =>
      match rstrip s' with
      | EmptyString => if float_space c then EmptyString else str c
      | r => String c r
      end
  | EmptyString => EmptyString
  end.

(** Underscores: each one after a digit and before a digit; they are dropped. *)
Fixpoint drop_underscores (prev : option ascii) (s : string) : option string :=
  match s with
  | EmptyString =>
      match prev with
      | Some "_"%char => None
      | _ => Some EmptyString
      end
  | String "_"%char s' =>
      match prev with
      | Some p => if is_ascii_digit p then drop_underscores (Some "_"%char) s' else None
      | None => None
      end
  | String c s' =>
      match prev with
      | Some "_"%char => if is_ascii_digit c then option_map (String c) (drop_underscores (Some c) s') else None
      | _ => option_map (String c) (drop_underscores (Some c) s')
      end
  end.

Definition lower (c : ascii) : ascii :=
  if (65 <=? code c) && (code c <=? 90) then ascii_of_nat (code c + 32) else c.

Fixpoint lowercase (s : string) : string :=
  match s with
  | EmptyString => EmptyString
  | String c s' => String (lower c) (lowercase s')
  end.

(** The leading ASCII digits of [s], as a number with their count, and the rest. *)
Fixpoint span_digits (acc : Z) (n : Z) (s : string) : Z * Z * string :=
  match s with
  | String c s' =>
      if is_ascii_digit c
      then span_digits (10 * acc + Z.of_nat (code c - 48)) (n + 1) s'
      else (acc, n, s)
  | EmptyString => (acc, n, s)
  end.

Definition split_sign (s : string) : bool * string :=
  match s with
  | String "-"%char s' => (true, s')
  | String "+"%char s' => (false, s')
  | _ => (false, s)
  end.

Definition parse_exponent (s : string) : option Z :=
  match s with
  | EmptyString => Some 0%Z
  | String c s' =>
      if Ascii.eqb (lower c) "e"
      then let (neg, digits) := split_sign s' in
           match span_digits 0 0 digits with
           | (e, n, EmptyString) =>
               if (n =? 0)%Z then None else Some (if neg then (- e)%Z else e)
           | _ => None
           end
      else None
  end.

(** The binary64 number nearest to [m * 10 ^ e10], for [0 <= m], with sign [neg]. *)
Definition round_decimal (neg : bool) (m e10 : Z) : float :=
  let signed (z : Z) := if neg then Z.opp z else z in
  SF2Prim
    (if (0 <=? e10)%Z
     then binary_normalize prec emax (signed (m * 10 ^ e10)%Z) 0 neg
     else
       let den := (10 ^ (- e10))%Z in
       let s := (Z.log2_up den + 70)%Z in
       let q := ((m * 2 ^ s) / den)%Z in
       let sticky := if ((m * 2 ^ s) mod den =? 0)%Z then 0%Z else 1%Z in
       binary_normalize prec emax (signed (2 * q + sticky)%Z) (- s - 1) neg).

Definition parse_decimal (neg : bool) (s : string) : option float :=
  let '(int_part, int_digits, s1) := span_digits 0 0 s in
  let '(mantissa, digits, s2) :=
    match s1 with
    | String "."%char s1' => span_digits int_part int_digits s1'
    | _ => (int_part, int_digits, s1)
    end in
  let frac_digits := (digits - int_digits)%Z in
  if (digits =? 0)%Z then None
  else match parse_exponent s2 with
       | Some e => Some (round_decimal neg mantissa (e - frac_digits))
       | None => None
       end.

Definition float_of_string (token : string) : option float :=
  match drop_underscores None token with
  | None => None
  | Some s =>
      let (neg, body) := split_sign (rstrip (lstrip s)) in
      let word := lowercase body in
      if String.eqb word "inf" || String.eqb word "infinity"
      then Some (if neg then neg_infinity else infinity)
      else if String.eqb word "nan" then Some nan
      else parse_decimal neg body
  end.

Definition check_is_number (token : string) : bool :=
  match float_of_string token with
  | Some _ => true
  | None => false
  end.

(** ** The operator table *)

Inductive associativity : Type := L | R.

Definition operators : list (string * (nat * associativity)) :=
  [ ("+", (1, L)); ("-", (1, L));
    ("*", (2, L)); ("/", (2, L));
    ("^", (3, R)) ].

(** [operators.get(key)]: the first entry of the table under [key]. *)
Fixpoint lookup {V : Type} (key : string) (table : list (string * V)) : option V :=
  match table with
  | [] => None
  | (k, v) :: table' => if String.eqb key k then Some v else lookup key table'
  end.

(** [key in operators]. *)
Definition in_operators (key : string) : bool :=
  match lookup key operators with
  | Some _ => true
  | None => false
  end.

(** ** tokenize_string *)

(** [expression.replace(' ', '')]. *)
Fixpoint remove_spaces (expression : string) : string :=
  match expression with
  | EmptyString => EmptyString
  | String c rest =>
      if Ascii.eqb c " " then remove_spaces rest else String c (remove_spaces rest)
  end.

(** [if current_number: tokens.append(''.join(current_number))]: the tokens
    after the pending number, if any, has been appended. *)
Definition flush (tokens : list string) (current_number : string) : list string :=
  match current_number with
  | EmptyString => tokens
  | _ => tokens ++ [current_number]
  end.

(** [expression[i - 1] in '(-+*/^)'], read only when [i] is not [0]. *)
Definition after_operator_or_paren (expression : string) (i : nat) : bool :=
  match String.get (i - 1) expression with
  | Some previous => char_in previous "(-+*/^)"
  | None => false
  end.

(** The state of the scan: the tokens so far and the pending number. *)
Definition scan : Type := list string * string.

(** One turn of the [while] loop, at index [i] where [char = expression[i]]. *)
Definition tokenize_char (expression : string) (i : nat) (char : ascii)
    (st : scan) : result scan :=
  let (tokens, current_number) := st in
  if isdigit char || Ascii.eqb char "."
  then Ok (tokens, current_number ++ str char)%string
  else
    let tokens := flush tokens current_number in
    if Ascii.eqb char "-" && ((i =? 0) || after_operator_or_paren expression i)
    then Ok (tokens, str char)
    else if in_operators (str char) || char_in char "()"
    then Ok (tokens ++ [str char], EmptyString)
    else Raise (ValueError ("Unexpected character: " ++ str char)%string).

(** The [while i < len(expression)] loop from index [i] on; [rest] holds the
    characters of [expression] from [i] on. *)
Fixpoint tokenize_from (expression : string) (i : nat) (rest : string)
    (st : scan) : result scan :=
  match rest with
  | EmptyString => Ok st
  | String char rest' =>
      st' <- tokenize_char expression i char st ;;
      tokenize_from expression (S i) rest' st'
  end.

Definition tokenize_string (expression : string) : result (list string) :=
  let expression := remove_spaces expression in
  '(tokens, current_number) <- tokenize_from expression 0 expression ([], EmptyString) ;;
  Ok (flush tokens current_number).

(** ** infix_to_rpn *)

(** The state of the conversion: the output list and the working stack. *)
Definition yard : Type := list string * list string.

(** The test of the [while] at an operator [token], on the top of the stack:
    [stack[-1] in operators] and the comparison of the two table entries. *)
Definition pops (token top : string) : bool :=
  match lookup top operators, lookup token operators with
  | Some (top_precedence, _), Some (precedence, assoc) =>
      match assoc with
      | L => precedence <=? top_precedence
      | R => precedence <? top_precedence
      end
  | _, _ => false
  end.

(** [while stack and ... : output.append(stack.pop())] at an operator. *)
Fixpoint pop_operators (token : string) (output stack : list string) : yard :=
  match stack with
  | top :: stack' =>
      if pops token top
      then pop_operators token (output ++ [top]) stack'
      else (output, stack)
  | [] => (output, stack)
  end.

(** [while stack and stack[-1] != '(': output.append(stack.pop())]. *)
Fixpoint pop_to_paren (output stack : list string) : yard :=
  match stack with
  | top :: stack' =>
      if String.eqb top "(" then (output, stack)
      else pop_to_paren (output ++ [top]) stack'
  | [] => (output, stack)
  end.

(** [stack.pop()]. *)
Definition pop {A : Type} (stack : list A) : result (A * list A) :=
  match stack with
  | top :: stack' => Ok (top, stack')
  | [] => Raise (IndexError "pop from empty list")
  end.

(** The body of [for token in tokens]. *)
Definition convert_token (token : string) (st : yard) : result yard :=
  let (output, stack) := st in
  if check_is_number token then Ok (output ++ [token], stack)
  else if in_operators token then
    let (output, stack) := pop_operators token output stack in
    Ok (output, token :: stack)
  else if String.eqb token "(" then Ok (output, token :: stack)
  else if String.eqb token ")" then
    let (output, stack) := pop_to_paren output stack in
    '(_, stack) <- pop stack ;;
    Ok (output, stack)
  else Ok (output, stack).

Fixpoint convert_tokens (tokens : list string) (st : yard) : result yard :=
  match tokens with
  | [] => Ok st
  | token :: tokens' =>
      st' <- convert_token token st ;;
      convert_tokens tokens' st'
  end.

(** The closing [while stack: output.append(stack.pop())]. *)
Fixpoint pop_all (output stack : list string) : list string :=
  match stack with
  | top :: stack' => pop_all (output ++ [top]) stack'
  | [] => output
  end.

(** [infix_to_rpn] from its list of tokens on. *)
Definition rpn_of_tokens (tokens : list string) : result (list string) :=
  '(output, stack) <- convert_tokens tokens ([], []) ;;
  Ok (pop_all output stack).

Definition infix_to_rpn (expression : string) : result (list string) :=
  tokens <- tokenize_string expression ;;
  rpn_of_tokens tokens.

(** ** evaluate_rpn *)

(** [stack[0]]. *)
Fixpoint bottom {A : Type} (stack : list A) : result A :=
  match stack with
  | [] => Raise (IndexError "list index out of range")
  | [x] => Ok x
  | _ :: stack' => bottom stack'
  end.

Section Evaluator.

(** [math.pow]: the C library's [pow] behind Python's checks, which raise
    [ValueError] and [OverflowError]. *)
Variable math_pow : float -> float -> result float.

(** The [if]/[elif] chain on the token, with [a] and [b] popped; a token that
    is none of the five leaves the stack as it is. *)
Definition apply_operator (token : string) (a b : float) (stack : list float)
    : result (list float) :=
  if String.eqb token "+" then Ok ((a + b)%float :: stack)
  else if String.eqb token "-" then Ok ((a - b)%float :: stack)
  else if String.eqb token "*" then Ok ((a * b)%float :: stack)
  else if String.eqb token "/" then
    if PrimFloat.eqb b 0 then Raise (ZeroDivisionError "Division by zero is not allowed")
    else Ok ((a / b)%float :: stack)
  else if String.eqb token "^" then
    v <- math_pow a b ;; Ok (v :: stack)
  else Ok stack.

(** The body of [for token in rpn_expression].  [0], the integer, is [0.0] in
    each of the five operations. *)
Definition evaluate_token (token : string) (stack : list float)
    : result (list float) :=
  match float_of_string token with
  | Some x => Ok (x :: stack)
  | None =>
      '(b, stack) <- pop stack ;;
      let (a, stack) :=
        match stack with
        | a :: stack' => (a, stack')
        | [] => (0%float, stack)
        end in
      apply_operator token a b stack
  end.

Fixpoint evaluate_tokens (rpn_expression : list string) (stack : list float)
    : result (list float) :=
  match rpn_expression with
  | [] => Ok stack
  | token :: rest =>
      stack' <- evaluate_token token stack ;;
      evaluate_tokens rest stack'
  end.

Definition evaluate_rpn (rpn_expression : list string) : result float :=
  stack <- evaluate_tokens rpn_expression [] ;;
  bottom stack.

Definition evaluate_expression (expression : string) : result float :=
  rpn <- infix_to_rpn expression ;;
  evaluate_rpn rpn.

End Evaluator.

(** An instance of [math_pow] for closed statements: the power by repeated
    multiplication when the exponent is a natural number up to 64, which is
    the exact power whenever that one and the partial products are binary64
    numbers (as for [3 ^ 2] and [2 ^ 9]); it stands for [math.pow] on such
    arguments only, and raises on every other exponent. *)
Fixpoint natural_exponent (fuel : nat) (b : float) : option nat :=
  if PrimFloat.eqb b 0 then Some 0
  else match fuel with
       | 0 => None
       | S fuel' => option_map S (natural_exponent fuel' (b - 1)%float)
       end.

Fixpoint power (a : float) (n : nat) : float :=
  match n with
  | 0 => 1%float
  | S n' => (a * power a n')%float
  end.

Definition pow_by_multiplication (a b : float) : result float :=
  match natural_exponent 64 b with
  | Some n => Ok (power a n)
  | None => Raise (ValueError "math domain error")
  end.

(** ** What the claims are stated with *)

(** The last character of a text, if any. *)
Fixpoint last_char (s : string) : option ascii :=
  match s with
  | EmptyString => None
  | String c EmptyString => Some c
  | String _ s' => last_char s'
  end.

(** A [-] that follows the text [before] starts a negative number: it is the
    first character, or the character before it is one of [( - + * / ^ )]. *)
Definition minus_starts_number (before : string) : Prop :=
  before = EmptyString \/
  exists previous, last_char before = Some previous /\
    In previous ["("; "-"; "+"; "*"; "/"; "^"; ")"]%char.

(** The pop rule on the table entries of the incoming operator and of the top
    of the stack. *)
Definition pop_rule (token top : string) : Prop :=
  exists precedence assoc top_precedence top_assoc,
    lookup token operators = Some (precedence, assoc) /\
    lookup top operators = Some (top_precedence, top_assoc) /\
    ((assoc = L /\ precedence <= top_precedence) \/
     (assoc = R /\ precedence < top_precedence)).

(** The characters the tokenizer has a branch for, and the space it removes. *)
Definition accepted (c : ascii) : bool :=
  isdigit c || Ascii.eqb c "." || Ascii.eqb c " "
  || char_in c "+-*/^" || char_in c "()".

(** The first character of a text that is not accepted. *)
Fixpoint first_rejected (expression : string) : option ascii :=
  match expression with
  | EmptyString => None
  | String c rest => if accepted c then first_rejected rest else Some c
  end.

(** [str.isspace()] of a one-character string, for the code points up to
    U+00FF: white space in the wide sense, of which the space is one. *)
Definition isspace (c : ascii) : bool :=
  ((9 <=? code c) && (code c <=? 13)) || ((28 <=? code c) && (code c <=? 32))
  || (code c =? 133) || (code c =? 160).

(** The characters an expression is made of when white space of any kind
    counts: digits, the point, white space, operator symbols, parentheses. *)
Definition named (c : ascii) : bool :=
  isdigit c || Ascii.eqb c "." || isspace c
  || char_in c "+-*/^" || char_in c "()".

(** The first character of a text that is none of those. *)
Fixpoint first_unnamed (expression : string) : option ascii :=
  match expression with
  | EmptyString => None
  | String c rest => if named c then first_unnamed rest else Some c
  end.

(** The white space of a text is made of space characters only. *)
Fixpoint plain_spaces (expression : string) : bool :=
  match expression with
  | EmptyString => true
  | String c rest =>
      (negb (isspace c) || Ascii.eqb c " ") && plain_spaces rest
  end.

(** ** Infix expressions and their standard value

    The reference the evaluation is compared with, in the spec's words: an
    expression over [+ - * /] with parentheses, its value by ordinary
    arithmetic on binary64 numbers, and its written form, in which [* /] bind
    tighter than [+ -] and operators of one precedence group to the left. *)

Inductive operation : Type := Add | Sub | Mul | Div.

Inductive expr : Type :=
| Lit (numeral : string)
| Bin (op : operation) (lhs rhs : expr)
| Paren (inner : expr).

Definition symbol (op : operation) : string :=
  match op with
  | Add => "+"
  | Sub => "-"
  | Mul => "*"
  | Div => "/"
  end.

Definition level (op : operation) : nat :=
  match op with
  | Add | Sub => 1
  | Mul | Div => 2
  end.

Definition compute (op : operation) (a b : float) : result float :=
  match op with
  | Add => Ok (a + b)%float
  | Sub => Ok (a - b)%float
  | Mul => Ok (a * b)%float
  | Div =>
      if PrimFloat.eqb b 0
      then Raise (ZeroDivisionError "Division by zero is not allowed")
      else Ok (a / b)%float
  end.

Fixpoint value (e : expr) : result float :=
  match e with
  | Lit numeral =>
      match float_of_string numeral with
      | Some x => Ok x
      | None => Raise (ValueError "could not convert string to float")
      end
  | Bin op lhs rhs =>
      a <- value lhs ;;
      b <- value rhs ;;
      compute op a b
  | Paren inner => value inner
  end.

(** The tokens of the written form of [e] where an operator of a precedence
    below [p] needs parentheses: the left operand of an operator stands at the
    operator's own level, the right operand one level above. *)
Fixpoint infix_tokens (p : nat) (e : expr) : list string :=
  match e with
  | Lit numeral => [numeral]
  | Bin op lhs rhs =>
      let body :=
        infix_tokens (level op) lhs ++ [symbol op]
        ++ infix_tokens (S (level op)) rhs in
      if level op <? p then ["("%string] ++ body ++ [")"%string] else body
  | Paren inner => ["("%string] ++ infix_tokens 1 inner ++ [")"%string]
  end.

Fixpoint join (tokens : list string) : string :=
  match tokens with
  | [] => EmptyString
  | token :: tokens' => (token ++ join tokens')%string
  end.

Definition infix_text (e : expr) : string := join (infix_tokens 1 e).

(** A numeral: a text of digits and points, not empty, that [float] reads. *)
Fixpoint digits_and_points (s : string) : bool :=
  match s with
  | EmptyString => true
  | String c s' => (is_ascii_digit c || Ascii.eqb c ".") && digits_and_points s'
  end.

Definition numeral (s : string) : bool :=
  negb (String.eqb s EmptyString) && digits_and_points s && check_is_number s.

Fixpoint well_formed (e : expr) : bool :=
  match e with
  | Lit s => numeral s
  | Bin _ lhs rhs => well_formed lhs && well_formed rhs
  | Paren inner => well_formed inner
  end.

(** Some token [-] stands right after a token [)], in [tokens] or as the
    first of them after [previous]. *)
Fixpoint paren_then_minus (previous : string) (tokens : list string) : bool :=
  match tokens with
  | [] => false
  | token :: tokens' =>
      (String.eqb previous ")" && String.eqb token "-")
      || paren_then_minus token tokens'
  end.

Definition minus_after_paren (tokens : list string) : bool :=
  paren_then_minus EmptyString tokens.

(** The postfix form of an expression. *)
Fixpoint rpn (e : expr) : list string :=
  match e with
  | Lit s => [s]
  | Bin op lhs rhs => rpn lhs ++ rpn rhs ++ [symbol op]
  | Paren inner => rpn inner
  end.

(** The operators of [e], written at level [p], that the converter still holds
    on its stack when the tokens of [e] have been read, top first. *)
Fixpoint pending (p : nat) (e : expr) : list string :=
  match e with
  | Bin op _ rhs =>
      if level op <? p then [] else pending (S (level op)) rhs ++ [symbol op]
  | _ => []
  end.

(** [token] is an operator of precedence [q] or more. *)
Definition at_least (q : nat) (token : string) : bool :=
  match lookup token operators with
  | Some (precedence, _) => q <=? precedence
  | None => false
  end.

(** The top of [stack], if any, is not an operator of precedence [q] or more. *)
Definition low (q : nat) (stack : list string) : bool :=
  match stack with
  | [] => true
  | top :: _ => negb (at_least q top)
  end.

(** What the tokenizer needs of a token after the [previous] one (the empty
    text at the start), to give the token back: a numeral does not follow a
    numeral, and [-] follows one. *)
Definition follows (previous token : string) : bool :=
  if numeral token then negb (numeral previous)
  else if String.eqb token "-" then numeral previous
  else String.eqb token "+" || String.eqb token "*" || String.eqb token "/"
       || String.eqb token "(" || String.eqb token ")".

Fixpoint scannable (previous : string) (tokens : list string) : bool :=
  match tokens with
  | [] => true
  | token :: tokens' => follows previous token && scannable token tokens'
  end.

(** The scan has read the text [before], which ends with the token
    [previous], and holds [current_number]: a numeral is still pending, and any
    other token has been appended. *)
Definition scan_state (previous before current_number : string) : Prop :=
  if numeral previous
  then current_number = previous /\
       exists c, last_char before = Some c /\
                 is_ascii_digit c || Ascii.eqb c "." = true
  else current_number = EmptyString.

(** The converter reads [tokens] at level [p]: from any output and any stack
    whose top is not an operator of precedence [p] or more, it goes on with
    the operators [held] above that stack, and its output with them is the old
    output with [done]. *)
Definition reads (tokens : list string) (p : nat) (held done : list string) : Prop :=
  forall rest output stack : list string,
    low p stack = true ->
    exists output',
      convert_tokens (tokens ++ rest) (output, stack)
      = convert_tokens rest (output', held ++ stack)
      /\ output' ++ held = output ++ done.

(** What the output list and the working stack hold while the tokens are
    read: numbers and operators, and operators and left parentheses. *)
Definition output_token (token : string) : bool :=
  check_is_number token || in_operators token.

Definition stack_token (token : string) : bool :=
  in_operators token || String.eqb token "(".

Definition converter_invariant (st : yard) : Prop :=
  Forall (fun token => output_token token = true) (fst st) /\
  Forall (fun token => stack_token token = true) (snd st).

(** A token before an operand (or the start), and a token that ends one. *)
Definition opener (previous : string) : bool :=
  in_operators previous || String.eqb previous "(" || String.eqb previous EmptyString.

Definition closer (token : string) : bool :=
  numeral token || String.eqb token ")".

(** After any token that ends an operand, [rest] can be scanned, if no [-]
    stands after a [)]. *)
Definition continues (rest : list string) : Prop :=
  forall last : string,
    closer last = true ->
    paren_then_minus last rest = false ->
    scannable last rest = true.

(** ** What the further properties are stated with *)

(** The tokens the converter has a branch for. *)
Definition recognised (token : string) : bool :=
  check_is_number token || in_operators token
  || String.eqb token "(" || String.eqb token ")".

(** Some [)] of [tokens] has no [(] to match, when [depth] of them are open
    before the first token. *)
Fixpoint unmatched_right (depth : nat) (tokens : list string) : bool :=
  match tokens with
  | [] => false
  | token :: tokens' =>
      if String.eqb token "(" then unmatched_right (S depth) tokens'
      else if String.eqb token ")" then
        match depth with
        | 0 => true
        | S depth' => unmatched_right depth' tokens'
        end
      else unmatched_right depth tokens'
  end.

(** The number of left parentheses on a stack. *)
Fixpoint left_parens (stack : list string) : nat :=
  match stack with
  | [] => 0
  | token :: stack' =>
      (if String.eqb token "(" then 1 else 0) + left_parens stack'
  end.

Definition not_left_paren (token : string) : bool :=
  negb (String.eqb token "(").

(** A text of the characters a pending number is made of, and the texts the
    tokenizer returns as tokens: an operator, a parenthesis, or such a text,
    not empty, after at most one [-]. *)
Fixpoint number_chars (s : string) : bool :=
  match s with
  | EmptyString => true
  | String c s' => (isdigit c || Ascii.eqb c ".") && number_chars s'
  end.

Definition number_text (s : string) : bool :=
  match s with
  | EmptyString => false
  | String c s' =>
      if Ascii.eqb c "-"
      then negb (String.eqb s' EmptyString) && number_chars s'
      else number_chars s
  end.

Definition token_shape (token : string) : bool :=
  in_operators token || String.eqb token "(" || String.eqb token ")"
  || number_text token.

(** The pending number of a scan: empty, the sign alone, or a number text. *)
Definition pending_shape (current_number : string) : bool :=
  String.eqb current_number EmptyString || String.eqb current_number "-"
  || number_text current_number.

(** The exceptions of the three stages themselves. *)
Definition own_error (e : exception) : Prop :=
  (exists c : ascii, e = ValueError ("Unexpected character: " ++ str c)%string)
  \/ e = IndexError "pop from empty list"
  \/ e = IndexError "list index out of range"
  \/ e = ZeroDivisionError "Division by zero is not allowed".

Definition raised_by_pow (math_pow : float -> float -> result float)
    (e : exception) : Prop :=
  exists a b : float, math_pow a b = Raise e.

(** ** Expressions over the whole operator table, with signed literals

    The five operators with the precedence and the associativity the table
    gives them; a literal is a numeral or a numeral after [-].  In the written
    form an operand that is an operation of lower precedence, or of the same
    precedence on the side the operator does not group to, is parenthesised. *)

Inductive operator : Type := Plus | Minus | Times | Divide | Power.

Inductive term : Type :=
| Number (text : string)
| Apply (op : operator) (lhs rhs : term)
| Group (inner : term).

Definition sign (op : operator) : string :=
  match op with
  | Plus => "+"
  | Minus => "-"
  | Times => "*"
  | Divide => "/"
  | Power => "^"
  end.

Definition precedence (op : operator) : nat :=
  match lookup (sign op) operators with
  | Some (p, _) => p
  | None => 0
  end.

Definition associates (op : operator) : associativity :=
  match lookup (sign op) operators with
  | Some (_, a) => a
  | None => L
  end.

(** The level at which the left and the right operand are written. *)
Definition left_level (op : operator) : nat :=
  match associates op with
  | L => precedence op
  | R => S (precedence op)
  end.

Definition right_level (op : operator) : nat :=
  match associates op with
  | L => S (precedence op)
  | R => precedence op
  end.

Section Terms.

Variable math_pow : float -> float -> result float.

Definition operate (op : operator) (a b : float) : result float :=
  match op with
  | Plus => Ok (a + b)%float
  | Minus => Ok (a - b)%float
  | Times => Ok (a * b)%float
  | Divide =>
      if PrimFloat.eqb b 0
      then Raise (ZeroDivisionError "Division by zero is not allowed")
      else Ok (a / b)%float
  | Power => math_pow a b
  end.

Fixpoint term_value (e : term) : result float :=
  match e with
  | Number text =>
      match float_of_string text with
      | Some x => Ok x
      | None => Raise (ValueError "could not convert string to float")
      end
  | Apply op lhs rhs =>
      a <- term_value lhs ;;
      b <- term_value rhs ;;
      operate op a b
  | Group inner => term_value inner
  end.

End Terms.

Fixpoint term_tokens (p : nat) (e : term) : list string :=
  match e with
  | Number text => [text]
  | Apply op lhs rhs =>
      let body :=
        term_tokens (left_level op) lhs ++ [sign op]
        ++ term_tokens (right_level op) rhs in
      if precedence op <? p then ["("%string] ++ body ++ [")"%string] else body
  | Group inner => ["("%string] ++ term_tokens 1 inner ++ [")"%string]
  end.

Definition term_text (e : term) : string := join (term_tokens 1 e).

Fixpoint term_rpn (e : term) : list string :=
  match e with
  | Number text => [text]
  | Apply op lhs rhs => term_rpn lhs ++ term_rpn rhs ++ [sign op]
  | Group inner => term_rpn inner
  end.

(** A literal: digits and points that [float] reads, after at most one [-]. *)
Definition literal (s : string) : bool :=
  check_is_number s &&
  match s with
  | EmptyString => false
  | String c s' =>
      if Ascii.eqb c "-"
      then negb (String.eqb s' EmptyString) && digits_and_points s'
      else digits_and_points s
  end.

Fixpoint literals_ok (e : term) : bool :=
  match e with
  | Number text => literal text
  | Apply _ lhs rhs => literals_ok lhs && literals_ok rhs
  | Group inner => literals_ok inner
  end.

(** The operators of [e], written at level [p], that the converter holds on
    its stack when the tokens of [e] have been read, top first. *)
Fixpoint term_pending (p : nat) (e : term) : list string :=
  match e with
  | Apply op _ rhs =>
      if precedence op <? p then []
      else term_pending (right_level op) rhs ++ [sign op]
  | _ => []
  end.

(** No operator that stands bare at level [c] pops an operator of a
    precedence below [threshold c]. *)
Definition threshold (c : nat) : nat :=
  match c with
  | 0 => 0
  | 1 => 1
  | 2 => 2
  | _ => 4
  end.

(** What the tokenizer needs of a token after the [previous] one, with signed
    literals: a literal does not follow a literal, and the operator [-]
    follows one. *)
Definition comes_after (previous token : string) : bool :=
  if literal token then negb (literal previous)
  else if String.eqb token "-" then literal previous
  else String.eqb token "+" || String.eqb token "*" || String.eqb token "/"
       || String.eqb token "^" || String.eqb token "(" || String.eqb token ")".

Fixpoint readable (previous : string) (tokens : list string) : bool :=
  match tokens with
  | [] => true
  | token :: tokens' => comes_after previous token && readable token tokens'
  end.

(** The scan has read the text [before], which ends with the token
    [previous]: a literal is still pending and ends with a digit or a point;
    after any other token nothing is pending, and the text is empty or ends
    with one of [( - + * / ^ )]. *)
Definition reading (previous before current_number : string) : Prop :=
  if literal previous
  then current_number = previous /\
       exists c, last_char before = Some c /\
                 is_ascii_digit c || Ascii.eqb c "." = true
  else current_number = EmptyString /\
       (before = EmptyString \/
        exists c, last_char before = Some c /\ char_in c "(-+*/^)" = true).

Definition term_closer (token : string) : bool :=
  literal token || String.eqb token ")".

Definition term_continues (rest : list string) : Prop :=
  forall last : string,
    term_closer last = true ->
    paren_then_minus last rest = false ->
    readable last rest = true.

(** ** Strings *)

Lemma append_empty_r (s : string) : (s ++ EmptyString)%string = s.
Proof. induction s as [|c s IH]; simpl; [reflexivity | now rewrite IH]. Qed.

Lemma append_assoc (s t u : string) :
  ((s ++ t) ++ u)%string = (s ++ (t ++ u))%string.
Proof. induction s as [|c s IH]; simpl; [reflexivity | now rewrite IH]. Qed.

Lemma length_append (s t : string) :
  String.length (s ++ t)%string = String.length s + String.length t.
Proof. induction s as [|c s IH]; simpl; [reflexivity | now rewrite IH]. Qed.

(** The character at index [i = len(before)] of [before ++ c ++ rest] is [c]:
    in [tokenize_from], started on the whole expression at index [0], the
    head of [rest] is [expression[i]]. *)
Lemma get_current (c : ascii) (before rest : string) :
  String.get (String.length before) (before ++ String c rest)%string = Some c.
Proof. induction before as [|d before IH]; [reflexivity | exact IH]. Qed.

Lemma get_previous (c : ascii) (before rest : string) :
  String.get (String.length before) (String c before ++ rest)%string
  = last_char (String c before).
Proof.
  revert c; induction before as [|d before IH]; intros c.
  - reflexivity.
  - change (String.get (String.length before) (String d before ++ rest)%string
            = last_char (String d before)).
    apply IH.
Qed.

Lemma char_in_spec (c : ascii) (s : string) :
  char_in c s = true <-> In c (list_ascii_of_string s).
Proof.
  induction s as [|d s IH]; simpl.
  - split; [discriminate | tauto].
  - rewrite orb_true_iff, IH, Ascii.eqb_eq. split; intros [H|H]; auto.
Qed.

Lemma in_operators_str (c : ascii) :
  in_operators (str c) = char_in c "+-*/^".
Proof. destruct c as [[] [] [] [] [] [] [] []]; reflexivity. Qed.

(** ** The tokenizer *)

Lemma tokenize_from_app (expression before rest : string) (i : nat) (st : scan) :
  tokenize_from expression i (before ++ rest)%string st
  = (st' <- tokenize_from expression i before st ;;
     tokenize_from expression (i + String.length before) rest st').
Proof.
  revert i st; induction before as [|c before IH]; intros i st; simpl.
  - now rewrite Nat.add_0_r.
  - destruct (tokenize_char expression i c st) as [st'|e]; simpl; [|reflexivity].
    rewrite IH. now rewrite Nat.add_succ_r.
Qed.

Lemma after_operator_or_paren_spec (before rest : string) :
  before <> EmptyString ->
  after_operator_or_paren (before ++ rest)%string (String.length before) = true
  <-> minus_starts_number before.
Proof.
  intros Hne. destruct before as [|c before]; [congruence|].
  unfold after_operator_or_paren, minus_starts_number.
  simpl String.length. rewrite Nat.sub_succ, Nat.sub_0_r, get_previous.
  destruct (last_char (String c before)) as [previous|] eqn:Hlast.
  - rewrite char_in_spec. simpl list_ascii_of_string. split.
    + intros H. right. exists previous. now split.
    + intros [H|[p [Hp H]]]; [discriminate|]. now injection Hp as <-.
  - split; [discriminate|]. intros [H|[p [Hp _]]]; discriminate.
Qed.

Lemma tokenize_minus (expression : string) (i : nat) (tokens : list string)
    (current_number : string) :
  tokenize_char expression i "-" (tokens, current_number)
  = if (i =? 0) || after_operator_or_paren expression i
    then Ok (flush tokens current_number, "-"%string)
    else Ok (flush tokens current_number ++ ["-"%string], EmptyString).
Proof. reflexivity. Qed.

Lemma tokenize_char_accepted (expression : string) (i : nat) (char : ascii)
    (st : scan) :
  Ascii.eqb char " " = false ->
  if accepted char
  then exists st', tokenize_char expression i char st = Ok st'
  else tokenize_char expression i char st
       = Raise (ValueError ("Unexpected character: " ++ str char)%string).
Proof.
  intros Hsp. destruct st as [tokens current_number].
  destruct (Ascii.eqb char "-") eqn:Hm.
  - apply Ascii.eqb_eq in Hm; subst char. rewrite tokenize_minus.
    change (accepted "-") with true. cbv iota.
    destruct ((i =? 0) || after_operator_or_paren expression i); eauto.
  - unfold tokenize_char, accepted. rewrite Hsp, Hm, in_operators_str.
    remember (char_in char "+-*/^") as op. remember (char_in char "()") as par.
    destruct (isdigit char || Ascii.eqb char "."); cbn [orb andb]; [eauto|].
    destruct (op || par); eauto.
Qed.

Lemma tokenize_from_stripped (expression raw : string) (i : nat) (st : scan) :
  match first_rejected raw with
  | Some c =>
      tokenize_from expression i (remove_spaces raw) st
      = Raise (ValueError ("Unexpected character: " ++ str c)%string)
  | None => exists st', tokenize_from expression i (remove_spaces raw) st = Ok st'
  end.
Proof.
  revert i st; induction raw as [|c raw IH]; intros i st; simpl.
  - eauto.
  - destruct (Ascii.eqb c " ") eqn:Hsp.
    + apply Ascii.eqb_eq in Hsp; subst c. change (accepted " ") with true.
      cbv iota. apply IH.
    + pose proof (tokenize_char_accepted expression i c st Hsp) as Hc.
      simpl tokenize_from. destruct (accepted c).
      * destruct Hc as [st' ->]. simpl. apply IH.
      * now rewrite Hc.
Qed.

(** The tokenizer on any text: it raises on the first character it has no
    branch for and does not remove, and returns tokens when there is none. *)
Lemma tokenize_string_first_rejected (expression : string) :
  match first_rejected expression with
  | Some c =>
      tokenize_string expression
      = Raise (ValueError ("Unexpected character: " ++ str c)%string)
  | None => exists tokens, tokenize_string expression = Ok tokens
  end.
Proof.
  unfold tokenize_string.
  pose proof (tokenize_from_stripped (remove_spaces expression) expression 0
                ([], EmptyString)) as H.
  destruct (first_rejected expression) as [c|].
  - now rewrite H.
  - destruct H as [[tokens current_number] ->]. simpl. eauto.
Qed.

Lemma accepted_named (c : ascii) : accepted c = true -> named c = true.
Proof.
  unfold accepted, named. destruct (Ascii.eqb c " ") eqn:Hsp.
  - apply Ascii.eqb_eq in Hsp; subst c. reflexivity.
  - destruct (isdigit c), (Ascii.eqb c "."), (char_in c "+-*/^"),
      (char_in c "()"), (isspace c); cbn [orb]; congruence.
Qed.

Lemma named_accepted (c : ascii) :
  negb (isspace c) || Ascii.eqb c " " = true ->
  named c = accepted c.
Proof.
  unfold accepted, named. destruct (Ascii.eqb c " ") eqn:Hsp.
  - apply Ascii.eqb_eq in Hsp; subst c. reflexivity.
  - rewrite orb_false_r. intros Hspace. apply negb_true_iff in Hspace.
    rewrite Hspace. now rewrite !orb_false_r.
Qed.

Lemma first_unnamed_rejected (expression : string) (c : ascii) :
  first_unnamed expression = Some c ->
  exists d, char_in d expression = true /\ first_rejected expression = Some d.
Proof.
  induction expression as [|a rest IH]; cbn [first_unnamed first_rejected char_in].
  - discriminate.
  - destruct (accepted a) eqn:Ha.
    + rewrite (accepted_named a Ha). intros H.
      destruct (IH H) as (d & Hin & Hd). exists d.
      now rewrite Hin, orb_true_r.
    + intros _. exists a. now rewrite Ascii.eqb_refl.
Qed.

Lemma first_unnamed_plain (expression : string) :
  plain_spaces expression = true ->
  first_unnamed expression = first_rejected expression.
Proof.
  induction expression as [|a rest IH]; cbn [plain_spaces first_unnamed first_rejected].
  - reflexivity.
  - intros H. apply andb_true_iff in H as [Ha Hrest].
    rewrite (named_accepted a Ha), (IH Hrest). reflexivity.
Qed.

(** C7 (as amended).  On a text with a character that is not a digit, a
    decimal point, white space, an operator symbol or a parenthesis,
    [tokenize_string] raises the [ValueError] whose message is
    [Unexpected character: ] followed by one character of the text: the error
    carries a character and no position.  When the white space of the text is
    made of space characters, the character is the first one of that kind.
    On a text of digits, points, space characters, operator symbols and
    parentheses only, [tokenize_string] returns a list of tokens.  In
    particular the evaluation of [2+$3] raises the error with [$]. *)
Theorem tokenize_string_unexpected_character :
  (forall (expression : string) (c : ascii),
      first_unnamed expression = Some c ->
      (exists d,
          char_in d expression = true /\
          tokenize_string expression
          = Raise (ValueError ("Unexpected character: " ++ str d)%string)) /\
      (plain_spaces expression = true ->
       tokenize_string expression
       = Raise (ValueError ("Unexpected character: " ++ str c)%string))) /\
  (forall expression : string,
      first_rejected expression = None ->
      exists tokens, tokenize_string expression = Ok tokens) /\
  (forall math_pow,
      evaluate_expression math_pow "2+$3"
      = Raise (ValueError "Unexpected character: $")).
Proof.
  split; [|split].
  - intros expression c Hc. split.
    + destruct (first_unnamed_rejected expression c Hc) as (d & Hin & Hd).
      exists d. split; [exact Hin|].
      pose proof (tokenize_string_first_rejected expression) as H.
      now rewrite Hd in H.
    + intros Hplain. rewrite (first_unnamed_plain expression Hplain) in Hc.
      pose proof (tokenize_string_first_rejected expression) as H.
      now rewrite Hc in H.
  - intros expression Hnone.
    pose proof (tokenize_string_first_rejected expression) as H.
    now rewrite Hnone in H.
  - intros math_pow. reflexivity.
Qed.

Lemma tokenize_string_unexpected_character_witness :
  tokenize_string "12 * (3 + #4) - 5&"
  = Raise (ValueError "Unexpected character: #").
Proof.
  apply (proj1 tokenize_string_unexpected_character "12 * (3 + #4) - 5&" "#"%char);
    reflexivity.
Defined.

(** C7, the claim as stated fails: the error holds the character and nothing
    else.  The texts [$] and [2+$3] have the unexpected character at the
    positions 0 and 2 and raise one and the same error, so that no position can
    be read from it. *)
Lemma unexpected_character_has_no_position :
  tokenize_string "$" = Raise (ValueError "Unexpected character: $") /\
  tokenize_string "2+$3" = Raise (ValueError "Unexpected character: $") /\
  ~ (exists position : exception -> nat,
        (forall e, tokenize_string "$" = Raise e -> position e = 0) /\
        (forall e, tokenize_string "2+$3" = Raise e -> position e = 2)).
Proof.
  split; [reflexivity|]. split; [reflexivity|].
  intros (position & Hfirst & Hthird).
  specialize (Hfirst _ eq_refl). specialize (Hthird _ eq_refl).
  rewrite Hfirst in Hthird. discriminate Hthird.
Qed.

(** Of all white space only the space character is removed before the scan: a
    tab is refused like any other character without a branch. *)
Lemma tokenize_string_refuses_tab :
  tokenize_string (String "2" (String "009" "+3"))
  = Raise (ValueError (String.append "Unexpected character: " (str "009"))).
Proof. reflexivity. Qed.

(** C3.  In the scan of a stripped text [before ++ "-" ++ rest], the [-] is
    put in a fresh pending number, and no token [-] is appended, when it is
    the first character or the character before it is one of [( - + * / ^ )];
    otherwise the token [-] is appended and the pending number is empty.  In
    particular [-53 + -24] has the tokens [-53], [+], [-24] and the value
    [-77.0]. *)
Theorem minus_starts_negative_number :
  (forall (before rest : string) (tokens : list string) (current_number : string),
      let expression := (before ++ String "-" rest)%string in
      tokenize_from expression 0 before ([], EmptyString)
      = Ok (tokens, current_number) ->
      (minus_starts_number before ->
       tokenize_from expression 0 expression ([], EmptyString)
       = tokenize_from expression (S (String.length before)) rest
           (flush tokens current_number, "-"%string)) /\
      (~ minus_starts_number before ->
       tokenize_from expression 0 expression ([], EmptyString)
       = tokenize_from expression (S (String.length before)) rest
           (flush tokens current_number ++ ["-"%string], EmptyString))) /\
  tokenize_string "-53 + -24" = Ok ["-53"; "+"; "-24"]%string /\
  (forall math_pow, evaluate_expression math_pow "-53 + -24" = Ok (-77)%float).
Proof.
  split; [|split; [reflexivity | intros; reflexivity]].
  intros before rest tokens current_number expression Hbefore.
  assert (Hstep :
    tokenize_from expression 0 expression ([], EmptyString)
    = (st' <- tokenize_char expression (String.length before) "-"
                (tokens, current_number) ;;
       tokenize_from expression (S (String.length before)) rest st')).
  { unfold expression at 2. rewrite tokenize_from_app, Hbefore. reflexivity. }
  rewrite Hstep, tokenize_minus.
  destruct before as [|c before].
  - simpl. split; [reflexivity|]. intros H. exfalso. apply H. now left.
  - pose proof (after_operator_or_paren_spec (String c before) (String "-" rest))
      as Hspec.
    fold expression in Hspec.
    replace (String.length (String c before) =? 0) with false by reflexivity.
    rewrite orb_false_l.
    destruct (after_operator_or_paren expression (String.length (String c before))).
    + split; [reflexivity|]. intros H. exfalso. apply H, Hspec; [discriminate|reflexivity].
    + split; [|reflexivity]. intros H. apply Hspec in H; [discriminate H|discriminate].
Qed.

Lemma minus_starts_negative_number_witness :
  tokenize_from "(2+3)-4" 0 "(2+3)-4" ([], EmptyString)
  = tokenize_from "(2+3)-4" 6 "4" (["("; "2"; "+"; "3"; ")"]%string, "-"%string)
  /\
  tokenize_from "3-2" 0 "3-2" ([], EmptyString)
  = tokenize_from "3-2" 2 "2" (["3"; "-"]%string, EmptyString).
Proof.
  split.
  - apply (proj1 (proj1 minus_starts_negative_number "(2+3)" "4"
                    ["("; "2"; "+"; "3"; ")"]%string EmptyString eq_refl)).
    right. exists ")"%char. split; [reflexivity|]. simpl. tauto.
  - apply (proj2 (proj1 minus_starts_negative_number "3" "2"
                    []%list "3"%string eq_refl)).
    intros [H|[p [Hp Hin]]]; [discriminate|].
    injection Hp as <-. simpl in Hin.
    repeat (destruct Hin as [Hin|Hin]; [discriminate Hin|]). exact Hin.
Defined.

(** ** The converter *)

Lemma pops_spec (token top : string) :
  pops token top = true <-> pop_rule token top.
Proof.
  unfold pops, pop_rule.
  destruct (lookup top operators) as [[top_precedence top_assoc]|];
    [destruct (lookup token operators) as [[precedence assoc]|]|].
  - destruct assoc.
    + rewrite Nat.leb_le. split.
      * intros H. exists precedence, L, top_precedence, top_assoc. auto.
      * intros (p & a & tp & ta & Hp & Htp & H).
        injection Hp as <- <-. injection Htp as <- <-.
        destruct H as [[_ H]|[H _]]; [exact H | discriminate H].
    + rewrite Nat.ltb_lt. split.
      * intros H. exists precedence, R, top_precedence, top_assoc. auto.
      * intros (p & a & tp & ta & Hp & Htp & H).
        injection Hp as <- <-. injection Htp as <- <-.
        destruct H as [[H _]|[_ H]]; [discriminate H | exact H].
  - split; [discriminate|]. intros (p & a & tp & ta & Hp & _). discriminate Hp.
  - split; [discriminate|]. intros (p & a & tp & ta & _ & Htp & _). discriminate Htp.
Qed.

Lemma operator_cases (token : string) :
  in_operators token = true ->
  token = "+"%string \/ token = "-"%string \/ token = "*"%string
  \/ token = "/"%string \/ token = "^"%string.
Proof.
  unfold in_operators, operators, lookup.
  destruct (String.eqb_spec token "+"); [auto|].
  destruct (String.eqb_spec token "-"); [auto|].
  destruct (String.eqb_spec token "*"); [auto|].
  destruct (String.eqb_spec token "/"); [auto|].
  destruct (String.eqb_spec token "^"); [auto 6|].
  discriminate.
Qed.

Lemma operator_not_number (token : string) :
  in_operators token = true -> check_is_number token = false.
Proof.
  intros H. destruct (operator_cases token H) as [->|[->|[->|[->| ->]]]];
    reflexivity.
Qed.

Lemma convert_operator (token : string) (output stack : list string) :
  in_operators token = true ->
  convert_token token (output, stack)
  = let (output', stack') := pop_operators token output stack in
    Ok (output', token :: stack').
Proof.
  intros H. unfold convert_token. now rewrite (operator_not_number token H), H.
Qed.

Lemma convert_right_paren (output stack : list string) :
  convert_token ")" (output, stack)
  = let (output', stack') := pop_to_paren output stack in
    '(_, stack'') <- pop stack' ;; Ok (output', stack'').
Proof. reflexivity. Qed.

Lemma pop_to_paren_app (output above rest : list string) :
  Forall (fun token => token <> "("%string) above ->
  pop_to_paren output (above ++ rest) = pop_to_paren (output ++ above) rest.
Proof.
  intros H. revert output. induction H as [|top above Htop _ IH]; intros output.
  - now rewrite app_nil_r.
  - simpl. apply String.eqb_neq in Htop. rewrite Htop, IH.
    now rewrite <- app_assoc.
Qed.

Lemma pop_all_app (output stack : list string) :
  pop_all output stack = output ++ stack.
Proof.
  revert output; induction stack as [|top stack IH]; intros output; simpl.
  - now rewrite app_nil_r.
  - rewrite IH. now rewrite <- app_assoc.
Qed.

(** C2.  At an incoming operator, the converter moves the top of the stack to
    the output exactly when the pop rule holds between the two: the incoming
    operator is left-associative with a precedence at most that of the top, or
    right-associative with a precedence strictly less; otherwise it pushes the
    operator above the top.  So [2^3^2] becomes [2 3 2 ^ ^], its value is
    [pow(2, pow(3, 2))], and that is [512.0] when [pow] is exact on these
    arguments. *)
Theorem pop_rule_decides_pop :
  (forall (token top : string) (output stack : list string),
      in_operators token = true ->
      (pop_rule token top ->
       convert_token token (output, top :: stack)
       = convert_token token (output ++ [top], stack)) /\
      (~ pop_rule token top ->
       convert_token token (output, top :: stack)
       = Ok (output, token :: top :: stack))) /\
  infix_to_rpn "2^3^2" = Ok ["2"; "3"; "2"; "^"; "^"]%string /\
  (forall math_pow,
      evaluate_expression math_pow "2^3^2"
      = (x <- math_pow 3%float 2%float ;; math_pow 2%float x)) /\
  (forall math_pow,
      math_pow 3%float 2%float = Ok 9%float ->
      math_pow 2%float 9%float = Ok 512%float ->
      evaluate_expression math_pow "2^3^2" = Ok 512%float).
Proof.
  assert (Hvalue : forall math_pow,
             evaluate_expression math_pow "2^3^2"
             = (x <- math_pow 3%float 2%float ;; math_pow 2%float x)).
  { intros math_pow. unfold evaluate_expression.
    change (infix_to_rpn "2^3^2") with (Ok ["2"; "3"; "2"; "^"; "^"]%string).
    cbv. destruct (math_pow 3%float 2%float) as [x|e]; [|reflexivity].
    destruct (math_pow 2%float x); reflexivity. }
  split; [|split; [reflexivity | split; [exact Hvalue|]]].
  - intros token top output stack Htoken.
    rewrite !(convert_operator token _ _ Htoken). simpl pop_operators.
    pose proof (pops_spec token top) as Hspec.
    destruct (pops token top).
    + split; [reflexivity|]. intros H. exfalso. now apply H, Hspec.
    + split; [|reflexivity]. intros H. apply Hspec in H. discriminate H.
  - intros math_pow H32 H29. now rewrite Hvalue, H32; simpl; rewrite H29.
Qed.

Lemma pop_rule_decides_pop_witness :
  convert_token "-" (["3"; "2"]%string, ["-"]%string)
  = convert_token "-" (["3"; "2"; "-"]%string, [])
  /\ convert_token "^" (["2"; "3"]%string, ["^"]%string)
     = Ok (["2"; "3"]%string, ["^"; "^"]%string)
  /\ evaluate_expression pow_by_multiplication "2^3^2" = Ok 512%float.
Proof.
  split; [|split].
  - apply (proj1 (proj1 pop_rule_decides_pop "-" "-" ["3"; "2"] []
                    eq_refl)%string).
    exists 1, L, 1, L. split; [reflexivity|]. split; [reflexivity|]. left. split; [reflexivity|]. lia.
  - apply (proj2 (proj1 pop_rule_decides_pop "^" "^" ["2"; "3"] []
                    eq_refl)%string).
    intros (p & a & tp & ta & Hp & Htp & H).
    injection Hp as <- <-. injection Htp as <- <-.
    destruct H as [[H _]|[_ H]]; [discriminate H | lia].
  - apply (proj2 (proj2 (proj2 pop_rule_decides_pop)) pow_by_multiplication);
      reflexivity.
Defined.

(** C4, at the input [(2]: the left parenthesis that is still on the stack at
    the end of the input is appended to the output by the closing loop, so the
    output holds a parenthesis. *)
Theorem stray_left_paren_in_output :
  rpn_of_tokens ["("; "2"]%string = Ok ["2"; "("]%string /\
  infix_to_rpn "(2" = Ok ["2"; "("]%string /\
  In "("%string ["2"; "("]%string.
Proof. repeat split. simpl. auto. Qed.

(** C5 (as amended).  At a right parenthesis the converter moves the stack
    entries above the first left parenthesis to the output and then pops that
    left parenthesis, which it drops; when the stack holds no left parenthesis
    it moves every entry to the output and the pop of the emptied stack raises
    [IndexError]. *)
Theorem right_paren_pops_to_left_paren
    (output above below : list string) :
  Forall (fun token => token <> "("%string) above ->
  convert_token ")" (output, above ++ "("%string :: below)
  = Ok (output ++ above, below) /\
  convert_token ")" (output, above)
  = Raise (IndexError "pop from empty list").
Proof.
  intros H. rewrite !convert_right_paren. split.
  - rewrite (pop_to_paren_app output above _ H). reflexivity.
  - rewrite <- (app_nil_r above) at 1.
    rewrite (pop_to_paren_app output above [] H). reflexivity.
Qed.

Lemma right_paren_pops_to_left_paren_witness :
  convert_token ")" (["2"; "3"]%string, ["*"; "+"; "("; "-"]%string)
  = Ok (["2"; "3"; "*"; "+"]%string, ["-"]%string) /\
  convert_token ")" (["2"; "3"]%string, ["*"; "+"]%string)
  = Raise (IndexError "pop from empty list").
Proof.
  apply (right_paren_pops_to_left_paren ["2"; "3"] ["*"; "+"] ["-"])%string.
  repeat constructor; discriminate.
Defined.

(** C5, the claim as stated fails: the unmatched right parenthesis of [2)]
    makes the conversion raise [IndexError] from the pop of the empty stack. *)
Lemma unmatched_right_paren_raises :
  infix_to_rpn "2)" = Raise (IndexError "pop from empty list").
Proof. reflexivity. Qed.

(** ** The evaluator *)

Section EvaluatorProperties.

Variable math_pow : float -> float -> result float.

Lemma evaluate_tokens_app (before rest : list string) (stack : list float) :
  evaluate_tokens math_pow (before ++ rest) stack
  = (stack' <- evaluate_tokens math_pow before stack ;;
     evaluate_tokens math_pow rest stack').
Proof.
  revert stack; induction before as [|token before IH]; intros stack; simpl.
  - reflexivity.
  - destruct (evaluate_token math_pow token stack); simpl; [apply IH | reflexivity].
Qed.

Lemma evaluate_divide (a b : float) (stack : list float) :
  apply_operator math_pow "/" a b stack
  = if PrimFloat.eqb b 0
    then Raise (ZeroDivisionError "Division by zero is not allowed")
    else Ok ((a / b)%float :: stack).
Proof. reflexivity. Qed.

Lemma evaluate_not_number (token : string) (stack : list float) :
  check_is_number token = false ->
  evaluate_token math_pow token stack
  = ('(b, stack') <- pop stack ;;
     match stack' with
     | a :: stack'' => apply_operator math_pow token a b stack''
     | [] => apply_operator math_pow token 0%float b []
     end).
Proof.
  unfold check_is_number, evaluate_token.
  destruct (float_of_string token); [discriminate|]. intros _.
  destruct stack as [|b [|a stack]]; reflexivity.
Qed.

(** C6.  At the token [/] with the right operand [b] popped, the evaluator
    raises [ZeroDivisionError] exactly when [b == 0] holds as a comparison of
    binary64 numbers, and pushes [a / b] otherwise; once raised, the error is
    the result of the whole evaluation, whatever follows.  In particular the
    evaluation of [4/0] raises it. *)
Theorem division_by_zero_raises :
  (forall (b : float) (stack : list float),
      evaluate_token math_pow "/" (b :: stack)
      = Raise (ZeroDivisionError "Division by zero is not allowed")
      <-> PrimFloat.eqb b 0 = true) /\
  (forall (a b : float) (stack : list float),
      evaluate_token math_pow "/" (b :: a :: stack)
      = Ok ((a / b)%float :: stack)
      <-> PrimFloat.eqb b 0 = false) /\
  (forall (before rest : list string) (b : float) (stack : list float),
      evaluate_tokens math_pow before [] = Ok (b :: stack) ->
      PrimFloat.eqb b 0 = true ->
      evaluate_rpn math_pow (before ++ "/"%string :: rest)
      = Raise (ZeroDivisionError "Division by zero is not allowed")) /\
  evaluate_token math_pow "/" [0x1p-1074%float; 1%float] = Ok [infinity] /\
  evaluate_expression math_pow "4/0"
  = Raise (ZeroDivisionError "Division by zero is not allowed") /\
  evaluate_expression math_pow "4/-0"
  = Raise (ZeroDivisionError "Division by zero is not allowed").
Proof.
  split; [|split; [|split; [|repeat split]]].
  - intros b stack.
    rewrite (evaluate_not_number "/" (b :: stack) eq_refl). cbn [pop bind].
    destruct stack as [|a stack]; rewrite evaluate_divide;
      destruct (PrimFloat.eqb b 0); split;
      solve [reflexivity | discriminate].
  - intros a b stack.
    rewrite (evaluate_not_number "/" (b :: a :: stack) eq_refl).
    cbn [pop bind]. rewrite evaluate_divide.
    destruct (PrimFloat.eqb b 0); split;
      solve [reflexivity | discriminate].
  - intros before rest b stack Hbefore Hb. unfold evaluate_rpn.
    rewrite evaluate_tokens_app, Hbefore. cbn [bind evaluate_tokens].
    rewrite (evaluate_not_number "/" (b :: stack) eq_refl). cbn [pop bind].
    destruct stack as [|a stack]; rewrite evaluate_divide, Hb; reflexivity.
Qed.

(** C8 (as amended).  On the empty list of tokens the evaluator returns no
    value: it raises the [IndexError] of reading [stack[0]] on the empty
    stack, and so does the evaluation of the empty string and of every
    string of spaces. *)
Theorem empty_expression_raises_index_error :
  evaluate_rpn math_pow [] = Raise (IndexError "list index out of range") /\
  (forall expression : string,
      remove_spaces expression = EmptyString ->
      evaluate_expression math_pow expression
      = Raise (IndexError "list index out of range")).
Proof.
  split; [reflexivity|].
  intros expression H.
  unfold evaluate_expression, infix_to_rpn, tokenize_string. now rewrite H.
Qed.

(** C9.  At a token that is not a number the evaluator pops [b], which
    raises [IndexError] on the empty stack, then pops [a] when the stack
    still holds a value and takes [0.0] for [a] otherwise: an operator met
    with the single value [b] on the stack computes [0.0 op b].  So the
    postfix sequence [2 -] of the expression [-(2)] has the value [-2.0]. *)
Theorem operator_with_one_operand :
  (forall (token : string) (b : float),
      check_is_number token = false ->
      evaluate_token math_pow token [] = Raise (IndexError "pop from empty list") /\
      evaluate_token math_pow token [b] = apply_operator math_pow token 0%float b [] /\
      (forall (a : float) (stack : list float),
          evaluate_token math_pow token (b :: a :: stack)
          = apply_operator math_pow token a b stack)) /\
  (forall b : float,
      evaluate_token math_pow "+" [b] = Ok [(0 + b)%float] /\
      evaluate_token math_pow "-" [b] = Ok [(0 - b)%float] /\
      evaluate_token math_pow "*" [b] = Ok [(0 * b)%float] /\
      (PrimFloat.eqb b 0 = false ->
       evaluate_token math_pow "/" [b] = Ok [(0 / b)%float]) /\
      evaluate_token math_pow "^" [b] = (v <- math_pow 0%float b ;; Ok [v])) /\
  infix_to_rpn "-(2)" = Ok ["2"; "-"]%string /\
  evaluate_expression math_pow "-(2)" = Ok (-2)%float.
Proof.
  split; [|split; [|split; reflexivity]].
  - intros token b H. rewrite !(evaluate_not_number token _ H).
    repeat split. intros a stack. now rewrite (evaluate_not_number token _ H).
  - intros b. repeat split.
    intros H. rewrite (evaluate_not_number "/" [b] eq_refl). cbn [pop bind].
    now rewrite evaluate_divide, H.
Qed.

Lemma last_in {A : Type} (d : A) (stack : list A) :
  stack <> [] -> In (List.last stack d) stack.
Proof.
  induction stack as [|x stack IH]; [congruence|]. intros _.
  destruct stack as [|y stack]; [now left|].
  right. apply IH. discriminate.
Qed.

Lemma bottom_last {A : Type} (top : A) (rest : list A) :
  bottom (top :: rest) = Ok (List.last rest top).
Proof.
  revert top; induction rest as [|next rest IH]; intros top.
  - reflexivity.
  - change (bottom (next :: rest) = Ok (List.last (next :: rest) top)).
    rewrite IH. destruct rest as [|x rest]; [reflexivity|].
    f_equal. clear. revert x. induction rest as [|y rest IH]; intros x.
    + reflexivity.
    + apply (IH y).
Qed.

(** C10.  When the evaluation of the tokens ends with more than one value on
    the stack, [evaluate_rpn] returns the bottom value, the first one that
    was pushed and is still there, and not the top one.  So [(2+3)-4], whose
    postfix sequence [2 3 + -4] leaves [5.0] under [-4.0], has the value
    [5.0]. *)
Theorem returns_bottom_of_stack :
  (forall (rpn_expression : list string) (top : float) (rest : list float),
      evaluate_tokens math_pow rpn_expression [] = Ok (top :: rest) ->
      rest <> [] ->
      evaluate_rpn math_pow rpn_expression = Ok (List.last rest top) /\
      In (List.last rest top) rest) /\
  infix_to_rpn "(2+3)-4" = Ok ["2"; "3"; "+"; "-4"]%string /\
  evaluate_tokens math_pow ["2"; "3"; "+"; "-4"]%string []
  = Ok [(-4)%float; 5%float] /\
  evaluate_expression math_pow "(2+3)-4" = Ok 5%float.
Proof.
  split; [|repeat split].
  intros rpn_expression top rest H Hrest. unfold evaluate_rpn. rewrite H.
  cbn [bind]. rewrite bottom_last. split; [reflexivity|].
  now apply last_in.
Qed.

End EvaluatorProperties.

Lemma division_by_zero_raises_witness :
  evaluate_rpn pow_by_multiplication ["1"; "2"; "2"; "-"; "/"; "7"; "+"]%string
  = Raise (ZeroDivisionError "Division by zero is not allowed").
Proof.
  apply (proj1 (proj2 (proj2 (division_by_zero_raises pow_by_multiplication)))
           ["1"; "2"; "2"; "-"]%string ["7"; "+"]%string 0%float [1%float]);
    reflexivity.
Defined.

Lemma empty_expression_raises_index_error_witness :
  evaluate_expression pow_by_multiplication "   "
  = Raise (IndexError "list index out of range").
Proof.
  apply (proj2 (empty_expression_raises_index_error pow_by_multiplication) "   ").
  reflexivity.
Defined.

(** C8, the claim as stated fails: what the evaluator raises on the empty
    list of tokens is the error of the list index itself. *)
Lemma evaluate_rpn_empty_raises_index_error :
  evaluate_rpn pow_by_multiplication []
  = Raise (IndexError "list index out of range").
Proof. reflexivity. Qed.

Lemma operator_with_one_operand_witness :
  evaluate_token pow_by_multiplication "*" [] = Raise (IndexError "pop from empty list")
  /\ evaluate_token pow_by_multiplication "*" [3%float]
     = apply_operator pow_by_multiplication "*" 0%float 3%float []
  /\ evaluate_token pow_by_multiplication "/" [4%float] = Ok [(0 / 4)%float].
Proof.
  destruct (proj1 (operator_with_one_operand pow_by_multiplication)
              "*"%string 3%float eq_refl) as (H0 & H1 & _).
  split; [exact H0 | split; [exact H1|]].
  destruct (proj1 (proj2 (operator_with_one_operand pow_by_multiplication))
              4%float) as (_ & _ & _ & Hdiv & _).
  apply Hdiv. reflexivity.
Defined.

Lemma returns_bottom_of_stack_witness :
  evaluate_rpn pow_by_multiplication ["2"; "3"; "+"; "-4"]%string = Ok 5%float.
Proof.
  apply (proj1 (returns_bottom_of_stack pow_by_multiplication)
           ["2"; "3"; "+"; "-4"]%string (-4)%float [5%float] eq_refl).
  discriminate.
Defined.

(** C1, at the input [(2+3)-4].  The evaluation of [2+3*4] is [14.0] and that
    of [(2+3)*4] is [20.0], as in arithmetic; but for the difference of
    [(2+3)] and [4], written [(2+3)-4], whose standard value is [1.0], the
    tokens are [( 2 + 3 ) -4] and the evaluation returns [5.0]. *)
Theorem minus_after_right_paren_is_swallowed (math_pow : float -> float -> result float) :
  evaluate_expression math_pow "2+3*4" = Ok 14%float /\
  evaluate_expression math_pow "(2+3)*4" = Ok 20%float /\
  infix_text (Bin Sub (Paren (Bin Add (Lit "2") (Lit "3"))) (Lit "4"))
  = "(2+3)-4"%string /\
  value (Bin Sub (Paren (Bin Add (Lit "2") (Lit "3"))) (Lit "4")) = Ok 1%float /\
  tokenize_string "(2+3)-4" = Ok ["("; "2"; "+"; "3"; ")"; "-4"]%string /\
  evaluate_expression math_pow "(2+3)-4" = Ok 5%float.
Proof. repeat split. Qed.

(** ** Well-formed expressions: the three stages against the standard value *)

Lemma numeral_is_number (s : string) :
  numeral s = true -> exists x, float_of_string s = Some x.
Proof.
  unfold numeral, check_is_number. intros H.
  apply andb_true_iff in H as [_ H].
  destruct (float_of_string s) as [x|]; [eauto | discriminate].
Qed.

Lemma symbol_entry (op : operation) :
  lookup (symbol op) operators = Some (level op, L).
Proof. destruct op; reflexivity. Qed.

Lemma symbol_in_operators (op : operation) : in_operators (symbol op) = true.
Proof. destruct op; reflexivity. Qed.

Section Postfix.

Variable math_pow : float -> float -> result float.

Lemma apply_symbol (op : operation) (a b : float) (stack : list float) :
  apply_operator math_pow (symbol op) a b stack
  = (v <- compute op a b ;; Ok (v :: stack)).
Proof.
  destruct op; try reflexivity.
  cbn [symbol compute]. rewrite evaluate_divide.
  destruct (PrimFloat.eqb b 0); reflexivity.
Qed.

Lemma evaluate_tokens_rpn (e : expr) :
  well_formed e = true ->
  forall (rest : list string) (stack : list float),
    evaluate_tokens math_pow (rpn e ++ rest) stack
    = (v <- value e ;; evaluate_tokens math_pow rest (v :: stack)).
Proof.
  induction e as [s|op lhs IHl rhs IHr|inner IH]; simpl; intros Hwf rest stack.
  - destruct (numeral_is_number s Hwf) as [x Hx].
    unfold evaluate_token. now rewrite Hx.
  - apply andb_true_iff in Hwf as [Hl Hr].
    rewrite <- !app_assoc, (IHl Hl).
    destruct (value lhs) as [a|err]; [|reflexivity]. cbn [bind].
    rewrite (IHr Hr).
    destruct (value rhs) as [b|err]; [|reflexivity]. cbn [bind app evaluate_tokens].
    rewrite (evaluate_not_number math_pow (symbol op) (b :: a :: stack)
               (operator_not_number _ (symbol_in_operators op))).
    cbn [pop bind]. rewrite apply_symbol.
    destruct (compute op a b); reflexivity.
  - now apply IH.
Qed.

Lemma evaluate_rpn_value (e : expr) :
  well_formed e = true -> evaluate_rpn math_pow (rpn e) = value e.
Proof.
  intros Hwf. unfold evaluate_rpn.
  rewrite <- (app_nil_r (rpn e)), (evaluate_tokens_rpn e Hwf).
  destruct (value e); reflexivity.
Qed.

End Postfix.

Lemma pops_symbol (op : operation) (top : string) :
  pops (symbol op) top = at_least (level op) top.
Proof.
  unfold pops, at_least. rewrite symbol_entry.
  destruct (lookup top operators) as [[precedence assoc]|]; reflexivity.
Qed.

Lemma at_least_weaken (p q : nat) (token : string) :
  p <= q -> at_least q token = true -> at_least p token = true.
Proof.
  unfold at_least. intros Hpq.
  destruct (lookup token operators) as [[precedence assoc]|]; [|discriminate].
  rewrite !Nat.leb_le. lia.
Qed.

Lemma at_least_not_paren (q : nat) (token : string) :
  at_least q token = true -> token <> "("%string.
Proof. intros H ->. discriminate H. Qed.

Lemma low_weaken (p q : nat) (stack : list string) :
  p <= q -> low p stack = true -> low q stack = true.
Proof.
  destruct stack as [|top stack]; [reflexivity|]. simpl. intros Hpq H.
  destruct (at_least q top) eqn:Hq; [|reflexivity].
  now rewrite (at_least_weaken p q top Hpq Hq) in H.
Qed.

Lemma pop_pending (op : operation) (held : list string) :
  Forall (fun token => at_least (level op) token = true) held ->
  forall output stack : list string,
    low (level op) stack = true ->
    pop_operators (symbol op) output (held ++ stack) = (output ++ held, stack).
Proof.
  induction 1 as [|top held Htop _ IH]; intros output stack Hlow.
  - rewrite app_nil_r. destruct stack as [|top stack]; [reflexivity|].
    simpl in *. rewrite pops_symbol.
    now destruct (at_least (level op) top).
  - simpl. rewrite pops_symbol, Htop, (IH _ _ Hlow).
    now rewrite <- app_assoc.
Qed.

Lemma pending_at_least (e : expr) (p : nat) :
  Forall (fun token => at_least p token = true) (pending p e).
Proof.
  revert p; induction e as [s|op lhs _ rhs IHr|inner _]; intros p; simpl;
    try constructor.
  destruct (Nat.ltb_spec (level op) p) as [Hlt|Hge]; [constructor|].
  apply Forall_app. split.
  - eapply Forall_impl; [|apply (IHr (S (level op)))].
    intros token. apply at_least_weaken. lia.
  - constructor; [|constructor].
    unfold at_least. rewrite symbol_entry. now apply Nat.leb_le.
Qed.

Lemma convert_number (token : string) (output stack : list string) :
  numeral token = true ->
  convert_token token (output, stack) = Ok (output ++ [token], stack).
Proof.
  unfold numeral, convert_token. intros H.
  apply andb_true_iff in H as [_ H]. now rewrite H.
Qed.

Lemma convert_close (output held stack : list string) :
  Forall (fun token => token <> "("%string) held ->
  convert_token ")" (output, held ++ "("%string :: stack)
  = Ok (output ++ held, stack).
Proof.
  intros H. rewrite convert_right_paren, (pop_to_paren_app output held _ H).
  reflexivity.
Qed.

(** The tokens of an operation [lhs op rhs], read with a stack whose top does
    not outrank [op]: the postfix form of [lhs], then that of [rhs] but for
    its pending operators, with [op] held under them. *)
Lemma reads_operation (op : operation) (left_tokens right_tokens : list string)
    (left_pending left_rpn right_pending right_rpn : list string) :
  Forall (fun token => at_least (level op) token = true) left_pending ->
  reads left_tokens (level op) left_pending left_rpn ->
  reads right_tokens (S (level op)) right_pending right_rpn ->
  reads (left_tokens ++ [symbol op] ++ right_tokens) (level op)
        (right_pending ++ [symbol op]) (left_rpn ++ right_rpn ++ [symbol op]).
Proof.
  intros Hheld Hleft Hright rest output stack Hlow.
  destruct (Hleft ([symbol op] ++ right_tokens ++ rest) output stack Hlow)
    as (output1 & Hrun1 & Hout1).
  destruct (Hright rest (output ++ left_rpn) (symbol op :: stack))
    as (output2 & Hrun2 & Hout2).
  { simpl. unfold at_least. rewrite symbol_entry.
    apply negb_true_iff, Nat.leb_gt. lia. }
  exists output2. split.
  - rewrite <- !app_assoc, Hrun1. cbn [app convert_tokens].
    rewrite (convert_operator _ _ _ (symbol_in_operators op)).
    rewrite (pop_pending op left_pending Hheld _ _ Hlow), Hout1.
    exact Hrun2.
  - rewrite !app_assoc, Hout2. reflexivity.
Qed.

(** Tokens between parentheses, read with any stack: their postfix form, and
    nothing held. *)
Lemma reads_parenthesized (tokens held done : list string) (p q : nat) :
  Forall (fun token => at_least q token = true) held ->
  reads tokens q held done ->
  reads (["("%string] ++ tokens ++ [")"%string]) p [] done.
Proof.
  intros Hheld Hreads rest output stack _.
  destruct (Hreads ([")"%string] ++ rest) output ("("%string :: stack) eq_refl)
    as (output1 & Hrun1 & Hout1).
  exists (output ++ done). split; [|now rewrite app_nil_r].
  rewrite <- !app_assoc. cbn [app convert_tokens].
  change (convert_token "(" (output, stack)) with (Ok (output, "("%string :: stack)).
  cbn [bind]. change (")"%string :: rest) with ([")"%string] ++ rest).
  rewrite Hrun1. cbn [app convert_tokens].
  rewrite convert_close, Hout1; [reflexivity|].
  eapply Forall_impl; [|exact Hheld]. intros token. apply at_least_not_paren.
Qed.

Lemma reads_weaken (tokens held done : list string) (p q : nat) :
  p <= q -> reads tokens q held done -> reads tokens p held done.
Proof.
  intros Hpq Hreads rest output stack Hlow.
  apply Hreads. now apply (low_weaken p q).
Qed.

Lemma reads_infix (e : expr) :
  well_formed e = true ->
  forall p : nat, reads (infix_tokens p e) p (pending p e) (rpn e).
Proof.
  induction e as [s|op lhs IHl rhs IHr|inner IH];
    cbn [well_formed infix_tokens pending rpn]; intros Hwf p.
  - intros rest output stack _. exists (output ++ [s]). split.
    + cbn [app convert_tokens]. now rewrite (convert_number s _ _ Hwf).
    + now rewrite app_nil_r.
  - apply andb_true_iff in Hwf as [Hl Hr].
    pose proof (reads_operation op _ _ _ _ _ _
                  (pending_at_least lhs (level op))
                  (IHl Hl (level op)) (IHr Hr (S (level op)))) as Hbody.
    destruct (Nat.ltb_spec (level op) p) as [Hlt|Hge].
    + apply (reads_parenthesized _ (pending (S (level op)) rhs ++ [symbol op]) _
               p (level op)); [|exact Hbody].
      apply Forall_app. split.
      * eapply Forall_impl; [|apply (pending_at_least rhs (S (level op)))].
        intros token. apply at_least_weaken. lia.
      * constructor; [|constructor]. unfold at_least. rewrite symbol_entry.
        now apply Nat.leb_le.
    + now apply (reads_weaken _ _ _ p (level op)).
  - apply (reads_parenthesized _ (pending 1 inner) _ p 1);
      [apply pending_at_least | now apply IH].
Qed.

Lemma rpn_of_infix_tokens (e : expr) :
  well_formed e = true -> rpn_of_tokens (infix_tokens 1 e) = Ok (rpn e).
Proof.
  intros Hwf. unfold rpn_of_tokens.
  destruct (reads_infix e Hwf 1 [] [] [] eq_refl) as (output & Hrun & Hout).
  rewrite app_nil_r in Hrun. rewrite Hrun. cbn [convert_tokens bind].
  rewrite app_nil_r, pop_all_app. now rewrite Hout.
Qed.

(** *** The tokenizer on the written form *)

Lemma numeral_parts (s : string) :
  numeral s = true -> s <> EmptyString /\ digits_and_points s = true.
Proof.
  unfold numeral. intros H.
  apply andb_true_iff in H as [H _]. apply andb_true_iff in H as [Hne Hd].
  split; [|exact Hd]. intros ->. discriminate Hne.
Qed.

Lemma flush_numeral (tokens : list string) (s : string) :
  s <> EmptyString -> flush tokens s = tokens ++ [s].
Proof. destruct s; [congruence | reflexivity]. Qed.

Lemma last_char_append (before s : string) :
  s <> EmptyString -> last_char (before ++ s)%string = last_char s.
Proof.
  intros Hs. induction before as [|c before IH]; [reflexivity|].
  simpl. rewrite IH.
  destruct (before ++ s)%string eqn:Heq; [|reflexivity].
  destruct before; [simpl in Heq; congruence | discriminate Heq].
Qed.

Lemma last_char_digits (s : string) :
  digits_and_points s = true -> s <> EmptyString ->
  exists c, last_char s = Some c /\ is_ascii_digit c || Ascii.eqb c "." = true.
Proof.
  induction s as [|c s IH]; [congruence|]. simpl. intros H _.
  apply andb_true_iff in H as [Hc Hs].
  destruct s as [|d s]; [eauto|]. apply IH; [exact Hs | discriminate].
Qed.

Lemma scan_numeral (s : string) :
  digits_and_points s = true ->
  forall (expression : string) (i : nat) (rest : string)
         (tokens : list string) (current_number : string),
    tokenize_from expression i (s ++ rest)%string (tokens, current_number)
    = tokenize_from expression (i + String.length s) rest
        (tokens, (current_number ++ s)%string).
Proof.
  induction s as [|c s IH]; simpl; intros H expression i rest tokens current_number.
  - now rewrite Nat.add_0_r, append_empty_r.
  - apply andb_true_iff in H as [Hc Hs].
    assert (Hd : isdigit c || Ascii.eqb c "." = true).
    { unfold isdigit. apply orb_true_iff in Hc as [Hc|Hc]; rewrite Hc; simpl;
        [reflexivity | apply orb_true_r]. }
    unfold tokenize_char. rewrite Hd. cbn [bind].
    rewrite (IH Hs), append_assoc. now rewrite Nat.add_succ_r.
Qed.

(** [H] says that [token] is one of the tokens [+ * / ( )]: one goal for each. *)
Ltac each_symbol H token :=
  repeat (apply orb_true_iff in H as [H|H]);
  apply String.eqb_eq in H; subst token.

Lemma scan_symbol (token : string) :
  String.eqb token "+" || String.eqb token "*" || String.eqb token "/"
  || String.eqb token "(" || String.eqb token ")" = true ->
  forall (expression : string) (i : nat) (rest : string)
         (tokens : list string) (current_number : string),
    tokenize_from expression i (token ++ rest)%string (tokens, current_number)
    = tokenize_from expression (S i) rest
        (flush tokens current_number ++ [token], EmptyString).
Proof.
  intros H expression i rest tokens current_number.
  each_symbol H token; reflexivity.
Qed.

Lemma scan_minus (before rest : string) (c : ascii)
    (tokens : list string) (current_number : string) :
  last_char before = Some c ->
  is_ascii_digit c || Ascii.eqb c "." = true ->
  tokenize_from (before ++ String "-" rest)%string (String.length before)
    (String "-" rest) (tokens, current_number)
  = tokenize_from (before ++ String "-" rest)%string (S (String.length before))
      rest (flush tokens current_number ++ ["-"%string], EmptyString).
Proof.
  intros Hlast Hc. cbn [tokenize_from]. rewrite tokenize_minus.
  assert (Hne : before <> EmptyString) by (intros ->; discriminate Hlast).
  replace (String.length before =? 0) with false
    by (destruct before; [congruence | reflexivity]).
  destruct (after_operator_or_paren (before ++ String "-" rest)
              (String.length before)) eqn:Hafter; [|reflexivity].
  apply (after_operator_or_paren_spec before (String "-" rest) Hne) in Hafter.
  destruct Hafter as [->|(previous & Hp & Hin)]; [congruence|].
  rewrite Hlast in Hp. injection Hp as <-. simpl in Hin.
  repeat (destruct Hin as [<-|Hin]; [discriminate Hc|]). destruct Hin.
Qed.

Lemma scan_tokens (tokens : list string) :
  forall (previous before : string)
         (scanned : list string) (current_number : string),
    scannable previous tokens = true ->
    scan_state previous before current_number ->
    exists scanned' current_number',
      tokenize_from (before ++ join tokens)%string (String.length before)
        (join tokens) (scanned, current_number)
      = Ok (scanned', current_number')
      /\ flush scanned' current_number'
         = flush scanned current_number ++ tokens.
Proof.
  induction tokens as [|token tokens IH];
    intros previous before scanned current_number Hscan Hstate.
  - exists scanned, current_number. split; [reflexivity | now rewrite app_nil_r].
  - cbn [scannable] in Hscan. apply andb_true_iff in Hscan as [Hfollows Hscan].
    cbn [join]. rewrite <- append_assoc.
    specialize (IH token (before ++ token)%string).
    rewrite length_append in IH.
    unfold follows in Hfollows. unfold scan_state in Hstate.
    destruct (numeral token) eqn:Hnum.
    + destruct (numeral_parts token Hnum) as [Hne Hdigits].
      apply negb_true_iff in Hfollows. rewrite Hfollows in Hstate.
      subst current_number. rewrite append_assoc, (scan_numeral token Hdigits).
      rewrite <- append_assoc.
      destruct (IH scanned token Hscan) as (scanned' & current' & Hrun & Hflush).
      { unfold scan_state. rewrite Hnum. split; [reflexivity|].
        rewrite (last_char_append before token Hne).
        now apply last_char_digits. }
      exists scanned', current'. split; [exact Hrun|].
      rewrite Hflush, (flush_numeral scanned token Hne), <- app_assoc.
      reflexivity.
    + destruct (String.eqb_spec token "-") as [->|Hminus].
      * rewrite Hfollows in Hstate.
        destruct Hstate as [-> (c & Hlast & Hc)].
        rewrite append_assoc. cbn [append].
        rewrite (scan_minus before (join tokens) c scanned previous Hlast Hc).
        change (String "-" (join tokens)) with ("-" ++ join tokens)%string.
        rewrite <- append_assoc.
        destruct (IH (flush scanned previous ++ ["-"%string]) EmptyString Hscan)
          as (scanned' & current' & Hrun & Hflush); [reflexivity|].
        replace (S (String.length before))
          with (String.length before + String.length "-") by (simpl; lia).
        exists scanned', current'. split; [exact Hrun|].
        rewrite Hflush. cbn [flush]. now rewrite <- app_assoc.
      * rewrite append_assoc,
          (scan_symbol token Hfollows _ _ _ scanned current_number).
        rewrite <- append_assoc.
        destruct (IH (flush scanned current_number ++ [token]) EmptyString Hscan)
          as (scanned' & current' & Hrun & Hflush).
        { unfold scan_state. now rewrite Hnum. }
        assert (Hlen : String.length token = 1).
        { each_symbol Hfollows token; reflexivity. }
        rewrite Hlen, Nat.add_1_r in Hrun.
        exists scanned', current'. split; [exact Hrun|].
        rewrite Hflush. cbn [flush]. now rewrite <- app_assoc.
Qed.

Lemma remove_spaces_append (s t : string) :
  remove_spaces (s ++ t)%string = (remove_spaces s ++ remove_spaces t)%string.
Proof.
  induction s as [|c s IH]; simpl; [reflexivity|].
  destruct (Ascii.eqb c " "); rewrite IH; reflexivity.
Qed.

Lemma remove_spaces_digits (s : string) :
  digits_and_points s = true -> remove_spaces s = s.
Proof.
  induction s as [|c s IH]; simpl; [reflexivity|]. intros H.
  apply andb_true_iff in H as [Hc Hs]. rewrite (IH Hs).
  destruct (Ascii.eqb_spec c " ") as [->|_]; [discriminate Hc | reflexivity].
Qed.

Lemma remove_spaces_join (tokens : list string) (previous : string) :
  scannable previous tokens = true -> remove_spaces (join tokens) = join tokens.
Proof.
  revert previous; induction tokens as [|token tokens IH]; intros previous;
    [reflexivity|].
  cbn [scannable join]. intros H. apply andb_true_iff in H as [Hfollows Hscan].
  rewrite remove_spaces_append, (IH _ Hscan). f_equal.
  unfold follows in Hfollows. destruct (numeral token) eqn:Hnum.
  - now apply remove_spaces_digits, numeral_parts.
  - destruct (String.eqb_spec token "-") as [->|_]; [reflexivity|].
    each_symbol Hfollows token; reflexivity.
Qed.

Lemma tokenize_string_join (tokens : list string) :
  scannable EmptyString tokens = true -> tokenize_string (join tokens) = Ok tokens.
Proof.
  intros H. unfold tokenize_string. rewrite (remove_spaces_join tokens EmptyString H).
  destruct (scan_tokens tokens EmptyString EmptyString [] EmptyString H)
    as (scanned & current_number & Hrun & Hflush); [reflexivity|].
  cbn [append String.length] in Hrun. rewrite Hrun. cbn [bind].
  now rewrite Hflush.
Qed.

Lemma last_cons {A : Type} (x d : A) (l : list A) :
  List.last (x :: l) d = List.last l x.
Proof.
  revert x d; induction l as [|y l IH]; intros x d; [reflexivity|].
  change (List.last (y :: l) d = List.last (y :: l) x). now rewrite !IH.
Qed.

Lemma paren_then_minus_app (previous : string) (tokens rest : list string) :
  paren_then_minus previous (tokens ++ rest) = false ->
  paren_then_minus previous tokens = false /\
  paren_then_minus (List.last tokens previous) rest = false.
Proof.
  revert previous; induction tokens as [|token tokens IH]; intros previous H.
  - split; [reflexivity | exact H].
  - cbn [app paren_then_minus] in *. apply orb_false_iff in H as [Hhead Htail].
    destruct (IH token Htail) as [H1 H2]. rewrite Hhead, H1. split; [reflexivity|].
    now rewrite last_cons.
Qed.

Lemma numeral_not_symbol (token : string) :
  numeral token = true ->
  in_operators token = false /\ String.eqb token "(" = false
  /\ String.eqb token ")" = false.
Proof.
  intros H.
  assert (Hcases : forall s : string, numeral s = false -> token <> s)
    by (intros s Hs ->; congruence).
  repeat split.
  - destruct (in_operators token) eqn:Hop; [|reflexivity].
    destruct (operator_cases token Hop) as [->|[->|[->|[->| ->]]]];
      discriminate H.
  - apply String.eqb_neq. now apply Hcases.
  - apply String.eqb_neq. now apply Hcases.
Qed.

Lemma opener_not_numeral (p : string) :
  opener p = true -> numeral p = false.
Proof.
  unfold opener. intros H. destruct (numeral p) eqn:Hnum; [|reflexivity].
  destruct (numeral_not_symbol p Hnum) as (H1 & H2 & _).
  rewrite H1, H2 in H. destruct (numeral_parts p Hnum) as [Hne _].
  apply String.eqb_neq in Hne. now rewrite Hne in H.
Qed.

Lemma follows_symbol (op : operation) (last : string) :
  closer last = true ->
  String.eqb last ")" && String.eqb (symbol op) "-" = false ->
  follows last (symbol op) = true.
Proof.
  unfold closer, follows. intros Hclose Hminus.
  destruct op; try reflexivity. cbn in *.
  rewrite andb_true_r in Hminus. now rewrite Hminus, orb_false_r in Hclose.
Qed.

Lemma scannable_parenthesized (body : list string) :
  (forall rest : list string,
      paren_then_minus "(" (body ++ rest) = false ->
      continues rest -> scannable "(" (body ++ rest) = true) ->
  forall (previous : string) (rest : list string),
    paren_then_minus previous ((["("%string] ++ body ++ [")"%string]) ++ rest)
    = false ->
    continues rest ->
    scannable previous ((["("%string] ++ body ++ [")"%string]) ++ rest) = true.
Proof.
  intros Hbody previous rest Hminus Hrest.
  rewrite <- !app_assoc in *. cbn [app scannable paren_then_minus] in *.
  apply orb_false_iff in Hminus as [_ Hminus].
  apply andb_true_iff. split; [reflexivity|].
  apply Hbody; [exact Hminus|].
  intros last Hlast Hlast_minus. cbn [scannable paren_then_minus] in *.
  apply orb_false_iff in Hlast_minus as [_ Hlast_minus].
  apply andb_true_iff. split; [reflexivity|].
  now apply Hrest.
Qed.

Lemma scannable_infix (e : expr) :
  well_formed e = true ->
  forall (p : nat) (previous : string) (rest : list string),
    opener previous = true ->
    paren_then_minus previous (infix_tokens p e ++ rest) = false ->
    continues rest ->
    scannable previous (infix_tokens p e ++ rest) = true.
Proof.
  induction e as [s|op lhs IHl rhs IHr|inner IH];
    cbn [well_formed infix_tokens]; intros Hwf p previous rest Hopen Hminus Hrest.
  - cbn [app scannable paren_then_minus] in *.
    apply orb_false_iff in Hminus as [_ Hminus].
    apply andb_true_iff. split.
    + unfold follows. rewrite Hwf. now rewrite (opener_not_numeral previous Hopen).
    + apply Hrest; [|exact Hminus]. unfold closer. now rewrite Hwf.
  - apply andb_true_iff in Hwf as [Hl Hr].
    assert (Hbody : forall (previous : string) (rest : list string),
               opener previous = true ->
               paren_then_minus previous
                 ((infix_tokens (level op) lhs ++ [symbol op]
                   ++ infix_tokens (S (level op)) rhs) ++ rest) = false ->
               continues rest ->
               scannable previous
                 ((infix_tokens (level op) lhs ++ [symbol op]
                   ++ infix_tokens (S (level op)) rhs) ++ rest) = true).
    { clear previous rest Hopen Hminus Hrest.
      intros previous rest Hopen Hminus Hrest. rewrite <- !app_assoc in *.
      apply (IHl Hl); [exact Hopen | exact Hminus|].
      intros last Hlast Hlast_minus. cbn [app scannable paren_then_minus] in *.
      apply orb_false_iff in Hlast_minus as [Hhead Hlast_minus].
      apply andb_true_iff. split; [now apply follows_symbol|].
      apply (IHr Hr); [|exact Hlast_minus | exact Hrest].
      unfold opener. now rewrite symbol_in_operators. }
    destruct (level op <? p).
    + apply scannable_parenthesized; [|exact Hminus | exact Hrest].
      intros rest' Hminus' Hrest'. now apply Hbody.
    + now apply Hbody.
  - apply scannable_parenthesized; [|exact Hminus | exact Hrest].
    intros rest' Hminus' Hrest'. now apply (IH Hwf).
Qed.

Lemma tokenize_infix_text (e : expr) :
  well_formed e = true ->
  minus_after_paren (infix_tokens 1 e) = false ->
  tokenize_string (infix_text e) = Ok (infix_tokens 1 e).
Proof.
  intros Hwf Hminus. apply tokenize_string_join.
  rewrite <- (app_nil_r (infix_tokens 1 e)).
  apply (scannable_infix e Hwf); [reflexivity | now rewrite app_nil_r|].
  intros last _ _. reflexivity.
Qed.

(** X1.  On a well-formed expression whose written form has no [-] right
    after a [)], the three stages agree with the standard value: the tokenizer gives
    back the tokens, the converter gives the postfix form, and the evaluator
    gives the value, or raises [ZeroDivisionError] where a divisor is zero. *)
Theorem evaluate_expression_standard (math_pow : float -> float -> result float)
    (e : expr) :
  well_formed e = true ->
  minus_after_paren (infix_tokens 1 e) = false ->
  tokenize_string (infix_text e) = Ok (infix_tokens 1 e) /\
  infix_to_rpn (infix_text e) = Ok (rpn e) /\
  evaluate_expression math_pow (infix_text e) = value e.
Proof.
  intros Hwf Hminus.
  assert (Hrpn : infix_to_rpn (infix_text e) = Ok (rpn e)).
  { unfold infix_to_rpn. rewrite (tokenize_infix_text e Hwf Hminus). cbn [bind].
    now apply rpn_of_infix_tokens. }
  split; [now apply tokenize_infix_text | split; [exact Hrpn|]].
  unfold evaluate_expression. rewrite Hrpn. cbn [bind].
  now apply evaluate_rpn_value.
Qed.

Lemma evaluate_expression_standard_witness :
  evaluate_expression pow_by_multiplication "7-2*(3+4.5)/(1-1)"
  = Raise (ZeroDivisionError "Division by zero is not allowed")
  /\ evaluate_expression pow_by_multiplication "10-(2+3)*4/8-1.5"
     = Ok 6%float.
Proof.
  split.
  - apply (evaluate_expression_standard pow_by_multiplication
             (Bin Sub (Lit "7")
                (Bin Div
                   (Bin Mul (Lit "2") (Bin Add (Lit "3") (Lit "4.5")))
                   (Bin Sub (Lit "1") (Lit "1")))));
      reflexivity.
  - apply (evaluate_expression_standard pow_by_multiplication
             (Bin Sub
                (Bin Sub (Lit "10")
                   (Bin Div (Bin Mul (Paren (Bin Add (Lit "2") (Lit "3"))) (Lit "4"))
                      (Lit "8")))
                (Lit "1.5")));
      reflexivity.
Defined.

(** ** What the converter puts in its output *)

Lemma pops_operator (token top : string) :
  pops token top = true -> in_operators top = true.
Proof.
  unfold pops, in_operators.
  destruct (lookup top operators); [reflexivity | discriminate].
Qed.

Lemma output_snoc (output : list string) (token : string) :
  Forall (fun token => output_token token = true) output ->
  output_token token = true ->
  Forall (fun token => output_token token = true) (output ++ [token]).
Proof. intros Ho Ht. apply Forall_app. split; [exact Ho | now constructor]. Qed.

Lemma pop_operators_invariant (token : string) (stack output : list string) :
  converter_invariant (output, stack) ->
  converter_invariant (pop_operators token output stack).
Proof.
  revert output; induction stack as [|top stack IH]; intros output [Ho Hs];
    [now split|].
  cbn [pop_operators]. destruct (pops token top) eqn:Hpops; [|now split].
  apply IH. cbn [fst snd] in *. split; [|now inversion Hs].
  apply output_snoc; [exact Ho|].
  unfold output_token. rewrite (pops_operator token top Hpops).
  apply orb_true_r.
Qed.

Lemma pop_to_paren_invariant (stack output : list string) :
  converter_invariant (output, stack) ->
  converter_invariant (pop_to_paren output stack).
Proof.
  revert output; induction stack as [|top stack IH]; intros output [Ho Hs];
    [now split|].
  cbn [pop_to_paren]. destruct (String.eqb top "(") eqn:Hparen; [now split|].
  apply IH. cbn [fst snd] in *. inversion Hs as [|? ? Htop Hstack]; subst.
  split; [|exact Hstack]. apply output_snoc; [exact Ho|].
  unfold stack_token in Htop. rewrite Hparen, orb_false_r in Htop.
  unfold output_token. rewrite Htop. apply orb_true_r.
Qed.

Lemma convert_token_invariant (token : string) (st st' : yard) :
  converter_invariant st ->
  convert_token token st = Ok st' ->
  converter_invariant st'.
Proof.
  destruct st as [output stack]. intros Hinv. unfold convert_token.
  destruct (check_is_number token) eqn:Hnum.
  { intros [= <-]. destruct Hinv as [Ho Hs]. split; [|exact Hs].
    apply output_snoc; [exact Ho|]. unfold output_token. now rewrite Hnum. }
  destruct (in_operators token) eqn:Hop.
  { pose proof (pop_operators_invariant token stack output Hinv) as Hpop.
    destruct (pop_operators token output stack) as [output1 stack1].
    intros [= <-]. destruct Hpop as [Ho Hs]. split; [exact Ho|].
    constructor; [|exact Hs]. unfold stack_token. now rewrite Hop. }
  destruct (String.eqb token "(") eqn:Hleft.
  { intros [= <-]. destruct Hinv as [Ho Hs]. split; [exact Ho|].
    constructor; [|exact Hs]. unfold stack_token. rewrite Hleft.
    apply orb_true_r. }
  destruct (String.eqb token ")").
  { pose proof (pop_to_paren_invariant stack output Hinv) as Hpop.
    destruct (pop_to_paren output stack) as [output1 [|top stack1]];
      [discriminate|].
    intros [= <-]. destruct Hpop as [Ho Hs]. split; [exact Ho|].
    now inversion Hs. }
  now intros [= <-].
Qed.

Lemma convert_tokens_invariant (tokens : list string) :
  forall st st' : yard,
    converter_invariant st ->
    convert_tokens tokens st = Ok st' ->
    converter_invariant st'.
Proof.
  induction tokens as [|token tokens IH]; intros st st' Hinv; cbn [convert_tokens].
  - now intros [= <-].
  - destruct (convert_token token st) as [st1|err] eqn:Hstep; [|discriminate].
    cbn [bind]. apply IH. now apply (convert_token_invariant token st).
Qed.

(** X2.  While the tokens are read, the output holds numbers and operators only,
    and the stack operators and left parentheses; the result is that output
    followed by the stack.  So a right parenthesis is never in the result, and
    a left one is in it only when it was left on the stack. *)
Theorem converter_output (tokens : list string) (output stack : list string) :
  convert_tokens tokens ([], []) = Ok (output, stack) ->
  rpn_of_tokens tokens = Ok (output ++ stack) /\
  Forall (fun token => output_token token = true) output /\
  Forall (fun token => stack_token token = true) stack /\
  ~ In ")"%string (output ++ stack).
Proof.
  intros Hrun.
  destruct (convert_tokens_invariant tokens ([], []) (output, stack)) as [Ho Hs];
    [split; constructor | exact Hrun |].
  cbn [fst snd] in *. split; [|split; [exact Ho | split; [exact Hs|]]].
  - unfold rpn_of_tokens. rewrite Hrun. cbn [bind]. now rewrite pop_all_app.
  - intros Hin. apply in_app_or in Hin as [Hin|Hin].
    + rewrite Forall_forall in Ho. now apply Ho in Hin.
    + rewrite Forall_forall in Hs. now apply Hs in Hin.
Qed.

Lemma converter_output_witness :
  rpn_of_tokens ["("; "1"; "+"; "("; "2"; "*"; "3"]%string
  = Ok (["1"; "2"; "3"]%string ++ ["*"; "("; "+"; "("]%string).
Proof.
  apply (converter_output ["("; "1"; "+"; "("; "2"; "*"; "3"]%string
           ["1"; "2"; "3"]%string ["*"; "("; "+"; "("]%string).
  reflexivity.
Defined.

(** X3.  The converter and the evaluator on the tokens of a well-formed
    expression, whatever stands after a [)]: the postfix form, and the
    standard value. *)
Theorem postfix_of_infix_tokens (math_pow : float -> float -> result float)
    (e : expr) :
  well_formed e = true ->
  rpn_of_tokens (infix_tokens 1 e) = Ok (rpn e) /\
  evaluate_rpn math_pow (rpn e) = value e.
Proof.
  intros Hwf. split; [now apply rpn_of_infix_tokens | now apply evaluate_rpn_value].
Qed.

Lemma postfix_of_infix_tokens_witness :
  rpn_of_tokens ["("; "2"; "+"; "3"; ")"; "-"; "4"]%string
  = Ok ["2"; "3"; "+"; "4"; "-"]%string
  /\ evaluate_rpn pow_by_multiplication ["2"; "3"; "+"; "4"; "-"]%string
     = Ok 1%float.
Proof.
  apply (postfix_of_infix_tokens pow_by_multiplication
           (Bin Sub (Paren (Bin Add (Lit "2") (Lit "3"))) (Lit "4"))).
  reflexivity.
Defined.

(** ** The tokens spell the stripped text *)

Lemma join_snoc (tokens : list string) (token : string) :
  join (tokens ++ [token]) = (join tokens ++ token)%string.
Proof.
  induction tokens as [|t tokens IH]; cbn [app join].
  - apply append_empty_r.
  - now rewrite IH, append_assoc.
Qed.

Lemma join_flush (tokens : list string) (current_number : string) :
  join (flush tokens current_number) = (join tokens ++ current_number)%string.
Proof.
  destruct current_number as [|c s]; cbn [flush].
  - now rewrite append_empty_r.
  - apply join_snoc.
Qed.

Lemma tokenize_char_text (expression : string) (i : nat) (char : ascii)
    (tokens tokens' : list string) (current_number current_number' : string) :
  tokenize_char expression i char (tokens, current_number)
  = Ok (tokens', current_number') ->
  (join tokens' ++ current_number')%string
  = ((join tokens ++ current_number) ++ str char)%string.
Proof.
  unfold tokenize_char.
  destruct (isdigit char || Ascii.eqb char ".").
  { intros [= <- <-]. now rewrite append_assoc. }
  destruct (Ascii.eqb char "-" && ((i =? 0) || after_operator_or_paren expression i)).
  { intros [= <- <-]. now rewrite join_flush. }
  destruct (in_operators (str char) || char_in char "()"); [|discriminate].
  intros [= <- <-]. now rewrite append_empty_r, join_snoc, join_flush.
Qed.

Lemma tokenize_from_text (expression rest : string) :
  forall (i : nat) (tokens tokens' : list string)
         (current_number current_number' : string),
    tokenize_from expression i rest (tokens, current_number)
    = Ok (tokens', current_number') ->
    (join tokens' ++ current_number')%string
    = ((join tokens ++ current_number) ++ rest)%string.
Proof.
  induction rest as [|char rest IH];
    intros i tokens tokens' current_number current_number'; cbn [tokenize_from].
  - intros [= <- <-]. now rewrite append_empty_r.
  - destruct (tokenize_char expression i char (tokens, current_number))
      as [[tokens1 current1]|err] eqn:Hchar; [|discriminate].
    cbn [bind]. intros Hrest. rewrite (IH _ _ _ _ _ Hrest).
    rewrite (tokenize_char_text _ _ _ _ _ _ _ Hchar).
    now rewrite append_assoc.
Qed.

(** X4.  The tokens that [tokenize_string] returns are in the order of the
    input and lose nothing of it: put end to end, they are the input without
    its spaces. *)
Theorem tokens_spell_stripped_text (expression : string) (tokens : list string) :
  tokenize_string expression = Ok tokens ->
  join tokens = remove_spaces expression.
Proof.
  unfold tokenize_string.
  destruct (tokenize_from (remove_spaces expression) 0 (remove_spaces expression)
              ([], EmptyString)) as [[scanned current_number]|err] eqn:Hscan;
    [|discriminate].
  cbn [bind]. intros [= <-]. rewrite join_flush.
  now rewrite (tokenize_from_text _ _ _ _ _ _ _ Hscan).
Qed.

Lemma tokens_spell_stripped_text_witness :
  join ["3"; "-"; "("; "-2.5"; ")"; "*"; "4"]%string = "3-(-2.5)*4"%string.
Proof.
  apply (tokens_spell_stripped_text " 3 - (-2.5) * 4 "
           ["3"; "-"; "("; "-2.5"; ")"; "*"; "4"]%string).
  reflexivity.
Defined.

(** ** Tokens without a branch in the converter *)

Lemma convert_unrecognised (token : string) (st : yard) :
  recognised token = false -> convert_token token st = Ok st.
Proof.
  unfold recognised, convert_token. destruct st as [output stack]. intros H.
  apply orb_false_iff in H as [H Hright]. apply orb_false_iff in H as [H Hleft].
  apply orb_false_iff in H as [Hnum Hop].
  now rewrite Hnum, Hop, Hleft, Hright.
Qed.

Lemma convert_tokens_recognised (tokens : list string) :
  forall st : yard,
    convert_tokens tokens st = convert_tokens (filter recognised tokens) st.
Proof.
  induction tokens as [|token tokens IH]; intros st; [reflexivity|].
  cbn [filter convert_tokens].
  destruct (recognised token) eqn:Hrec.
  - cbn [convert_tokens]. destruct (convert_token token st); [apply IH | reflexivity].
  - rewrite (convert_unrecognised token st Hrec). apply IH.
Qed.

(** X5.  A token that is not a number for [float], an operator or a
    parenthesis is skipped by the converter without an error: the postfix
    output is that of the list without such tokens, and the evaluation goes
    on from it.  So a literal with two points is ignored, not reported. *)
Theorem unrecognised_tokens_are_skipped :
  (forall tokens : list string,
      rpn_of_tokens tokens = rpn_of_tokens (filter recognised tokens)) /\
  (forall (math_pow : float -> float -> result float) (expression : string)
          (tokens : list string),
      tokenize_string expression = Ok tokens ->
      evaluate_expression math_pow expression
      = (rpn <- rpn_of_tokens (filter recognised tokens) ;;
         evaluate_rpn math_pow rpn)).
Proof.
  split.
  - intros tokens. unfold rpn_of_tokens. now rewrite convert_tokens_recognised.
  - intros math_pow expression tokens Htokens.
    unfold evaluate_expression, infix_to_rpn. rewrite Htokens. cbn [bind].
    unfold rpn_of_tokens. now rewrite convert_tokens_recognised.
Qed.

Lemma unrecognised_tokens_are_skipped_witness :
  evaluate_expression pow_by_multiplication "2*3+1.2.3" = Ok 6%float.
Proof.
  rewrite (proj2 unrecognised_tokens_are_skipped pow_by_multiplication
             "2*3+1.2.3" ["2"; "*"; "3"; "+"; "1.2.3"]%string eq_refl).
  reflexivity.
Defined.

(** ** The converter fails on an unmatched right parenthesis, and only then *)

Lemma pops_not_paren (token top : string) :
  pops token top = true -> String.eqb top "(" = false.
Proof.
  intros H. destruct (String.eqb_spec top "(") as [->|]; [discriminate H | reflexivity].
Qed.

Lemma pop_operators_left_parens (token : string) (stack output : list string) :
  left_parens (snd (pop_operators token output stack)) = left_parens stack.
Proof.
  revert output; induction stack as [|top stack IH]; intros output; [reflexivity|].
  cbn [pop_operators]. destruct (pops token top) eqn:Hpops; [|reflexivity].
  rewrite IH. cbn [left_parens]. now rewrite (pops_not_paren token top Hpops).
Qed.

Lemma pop_to_paren_left_parens (stack output : list string) :
  match snd (pop_to_paren output stack) with
  | [] => left_parens stack = 0
  | top :: stack' => top = "("%string /\ S (left_parens stack') = left_parens stack
  end.
Proof.
  revert output; induction stack as [|top stack IH]; intros output; [reflexivity|].
  cbn [pop_to_paren left_parens].
  destruct (String.eqb_spec top "(") as [->|Hne]; [now split|].
  exact (IH (output ++ [top])).
Qed.

Lemma convert_token_keeps_depth (token : string) (output stack : list string) :
  String.eqb token "(" = false -> String.eqb token ")" = false ->
  exists output' stack',
    convert_token token (output, stack) = Ok (output', stack')
    /\ left_parens stack' = left_parens stack.
Proof.
  intros Hleft Hright. unfold convert_token. rewrite Hleft, Hright.
  destruct (check_is_number token); [eauto|].
  destruct (in_operators token); [|eauto].
  pose proof (pop_operators_left_parens token stack output) as Hdepth.
  destruct (pop_operators token output stack) as [output1 stack1].
  exists output1, (token :: stack1). split; [reflexivity|].
  cbn [left_parens snd] in *. now rewrite Hleft.
Qed.

Lemma convert_tokens_unmatched (tokens : list string) :
  forall output stack : list string,
    match convert_tokens tokens (output, stack) with
    | Ok _ => unmatched_right (left_parens stack) tokens = false
    | Raise e =>
        unmatched_right (left_parens stack) tokens = true
        /\ e = IndexError "pop from empty list"
    end.
Proof.
  induction tokens as [|token tokens IH]; intros output stack; [reflexivity|].
  cbn [convert_tokens unmatched_right].
  destruct (String.eqb_spec token "(") as [->|Hleft].
  { exact (IH output ("("%string :: stack)). }
  destruct (String.eqb_spec token ")") as [->|Hright].
  { rewrite convert_right_paren.
    pose proof (pop_to_paren_left_parens stack output) as Hdepth.
    destruct (pop_to_paren output stack) as [output1 [|top stack1]];
      cbn [snd pop bind] in *.
    - rewrite Hdepth. now split.
    - destruct Hdepth as [_ <-]. exact (IH output1 stack1). }
  apply String.eqb_neq in Hleft, Hright.
  destruct (convert_token_keeps_depth token output stack Hleft Hright)
    as (output1 & stack1 & -> & <-).
  exact (IH output1 stack1).
Qed.

(** X6.  The conversion of a list of tokens raises exactly when some right
    parenthesis has no left parenthesis before it to match; the error is then
    the [IndexError] of the pop, and no other error is raised.  Unmatched
    left parentheses never make it fail. *)
Theorem converter_fails_on_unmatched_right (tokens : list string) :
  match rpn_of_tokens tokens with
  | Ok _ => unmatched_right 0 tokens = false
  | Raise e =>
      unmatched_right 0 tokens = true /\ e = IndexError "pop from empty list"
  end.
Proof.
  unfold rpn_of_tokens.
  pose proof (convert_tokens_unmatched tokens [] []) as H.
  destruct (convert_tokens tokens ([], [])) as [[output stack]|e]; exact H.
Qed.

(** ** The output holds the numbers in order and every operator once *)

Lemma pop_operators_app (token : string) (stack output : list string) :
  fst (pop_operators token output stack) ++ snd (pop_operators token output stack)
  = output ++ stack.
Proof.
  revert output; induction stack as [|top stack IH]; intros output; [reflexivity|].
  cbn [pop_operators]. destruct (pops token top); [|reflexivity].
  rewrite IH. now rewrite <- app_assoc.
Qed.

Lemma pop_to_paren_same (stack output : list string) :
  fst (pop_to_paren output stack) ++ snd (pop_to_paren output stack)
  = output ++ stack.
Proof.
  revert output; induction stack as [|top stack IH]; intros output; [reflexivity|].
  cbn [pop_to_paren]. destruct (String.eqb top "("); [reflexivity|].
  rewrite IH. now rewrite <- app_assoc.
Qed.

Lemma stack_holds_no_number (stack : list string) :
  Forall (fun token => stack_token token = true) stack ->
  filter check_is_number stack = [].
Proof.
  induction 1 as [|top stack Htop _ IH]; [reflexivity|].
  cbn [filter]. rewrite IH. unfold stack_token in Htop.
  apply orb_true_iff in Htop as [Hop|Hparen].
  - now rewrite (operator_not_number top Hop).
  - apply String.eqb_eq in Hparen. now subst top.
Qed.

(** What one token adds to the output and stack taken together. *)
Lemma convert_token_adds (token : string) (output stack output' stack' : list string) :
  converter_invariant (output, stack) ->
  convert_token token (output, stack) = Ok (output', stack') ->
  Permutation (filter not_left_paren (output' ++ stack'))
    (filter not_left_paren (output ++ stack)
     ++ (if output_token token then [token] else []))
  /\ filter check_is_number (output' ++ stack')
     = filter check_is_number (output ++ stack)
       ++ (if check_is_number token then [token] else []).
Proof.
  intros [_ Hstack]. cbn [fst snd] in Hstack.
  pose proof (stack_holds_no_number stack Hstack) as Hnone.
  unfold convert_token, output_token.
  destruct (check_is_number token) eqn:Hnum.
  { intros [= <- <-]. cbn [orb]. rewrite !filter_app, Hnone, !app_nil_r.
    cbn [filter]. rewrite Hnum.
    replace (not_left_paren token) with true.
    - split; [|reflexivity]. rewrite <- !app_assoc.
      apply Permutation_app_head, Permutation_app_comm.
    - unfold not_left_paren.
      destruct (String.eqb_spec token "(") as [->|]; [discriminate Hnum | reflexivity]. }
  destruct (in_operators token) eqn:Hop.
  { pose proof (pop_operators_app token stack output) as Happ.
    destruct (pop_operators token output stack) as [output1 stack1].
    cbn [fst snd] in Happ. intros [= <- <-]. cbn [orb].
    rewrite <- Happ, !filter_app. cbn [filter]. rewrite Hnum.
    replace (not_left_paren token) with true
      by (unfold not_left_paren;
          destruct (String.eqb_spec token "(") as [->|]; [discriminate Hop | reflexivity]).
    split; [|now rewrite app_nil_r].
    rewrite <- app_assoc. apply Permutation_app_head.
    apply Permutation_cons_append. }
  destruct (String.eqb_spec token "(") as [->|Hleft].
  { intros [= <- <-]. cbn [orb]. rewrite !filter_app, !app_nil_r.
    split; reflexivity. }
  destruct (String.eqb_spec token ")") as [->|Hright].
  { pose proof (pop_to_paren_same stack output) as Happ.
    pose proof (pop_to_paren_left_parens stack output) as Htop.
    destruct (pop_to_paren output stack) as [output1 [|top stack1]];
      cbn [fst snd pop bind] in *; [discriminate|].
    destruct Htop as [-> _]. intros [= <- <-]. cbn [orb].
    rewrite <- Happ, !filter_app, !app_nil_r. split; reflexivity. }
  intros [= <- <-]. cbn [orb]. rewrite !app_nil_r. split; reflexivity.
Qed.

Lemma convert_tokens_adds (tokens : list string) :
  forall output stack output' stack' : list string,
    converter_invariant (output, stack) ->
    convert_tokens tokens (output, stack) = Ok (output', stack') ->
    Permutation (filter not_left_paren (output' ++ stack'))
      (filter not_left_paren (output ++ stack) ++ filter output_token tokens)
    /\ filter check_is_number (output' ++ stack')
       = filter check_is_number (output ++ stack)
         ++ filter check_is_number tokens.
Proof.
  induction tokens as [|token tokens IH];
    intros output stack output' stack' Hinv; cbn [convert_tokens].
  - intros [= <- <-]. cbn [filter]. now rewrite !app_nil_r.
  - destruct (convert_token token (output, stack)) as [[output1 stack1]|e] eqn:Hstep;
      [|discriminate].
    cbn [bind]. intros Hrest.
    destruct (convert_token_adds token _ _ _ _ Hinv Hstep) as [Hperm1 Hnum1].
    destruct (IH _ _ _ _ (convert_token_invariant token _ _ Hinv Hstep) Hrest)
      as [Hperm2 Hnum2].
    split.
    + rewrite Hperm2, Hperm1, <- app_assoc. cbn [filter].
      destruct (output_token token); reflexivity.
    + rewrite Hnum2, Hnum1, <- app_assoc. cbn [filter].
      destruct (check_is_number token); reflexivity.
Qed.

(** X7.  In the postfix output the number tokens of the input stand in the
    order of the input, and apart from left parentheses the output is a
    rearrangement of the number and operator tokens of the input: no number
    or operator is lost, repeated or invented. *)
Theorem converter_rearranges (tokens rpn_expression : list string) :
  rpn_of_tokens tokens = Ok rpn_expression ->
  filter check_is_number rpn_expression = filter check_is_number tokens /\
  Permutation (filter not_left_paren rpn_expression) (filter output_token tokens).
Proof.
  unfold rpn_of_tokens.
  destruct (convert_tokens tokens ([], [])) as [[output stack]|e] eqn:Hrun;
    [|discriminate].
  cbn [bind]. rewrite pop_all_app. intros [= <-].
  destruct (convert_tokens_adds tokens [] [] output stack) as [Hperm Hnum];
    [split; constructor | exact Hrun |].
  split; [exact Hnum | exact Hperm].
Qed.

Lemma converter_rearranges_witness :
  filter check_is_number ["8"; "2"; "3"; "4"; "-"; "*"; "/"]%string
  = filter check_is_number ["8"; "/"; "("; "2"; "*"; "("; "3"; "-"; "4"; ")"; ")"]%string.
Proof.
  apply (converter_rearranges
           ["8"; "/"; "("; "2"; "*"; "("; "3"; "-"; "4"; ")"; ")"]%string
           ["8"; "2"; "3"; "4"; "-"; "*"; "/"]%string).
  reflexivity.
Defined.

(** ** The exceptions of an evaluation *)

Lemma tokenize_string_error (expression : string) (e : exception) :
  tokenize_string expression = Raise e ->
  exists c : ascii, e = ValueError ("Unexpected character: " ++ str c)%string.
Proof.
  unfold tokenize_string.
  pose proof (tokenize_from_stripped (remove_spaces expression) expression 0
                ([], EmptyString)) as H.
  destruct (first_rejected expression) as [c|].
  - rewrite H. cbn [bind]. intros [= <-]. now exists c.
  - destruct H as [[tokens current_number] ->]. discriminate.
Qed.

Lemma rpn_of_tokens_error (tokens : list string) (e : exception) :
  rpn_of_tokens tokens = Raise e -> e = IndexError "pop from empty list".
Proof.
  unfold rpn_of_tokens.
  pose proof (convert_tokens_unmatched tokens [] []) as H.
  destruct (convert_tokens tokens ([], [])) as [[output stack]|e'];
    [discriminate|].
  cbn [bind]. intros [= <-]. apply H.
Qed.

Lemma bottom_error {A : Type} (stack : list A) (e : exception) :
  bottom stack = Raise e -> e = IndexError "list index out of range".
Proof.
  induction stack as [|x [|y stack] IH]; cbn [bottom].
  - now intros [= <-].
  - discriminate.
  - exact IH.
Qed.

Section Exceptions.

Variable math_pow : float -> float -> result float.

Lemma apply_operator_error (token : string) (a b : float) (stack : list float)
    (e : exception) :
  apply_operator math_pow token a b stack = Raise e ->
  own_error e \/ raised_by_pow math_pow e.
Proof.
  unfold apply_operator.
  destruct (String.eqb token "+"); [discriminate|].
  destruct (String.eqb token "-"); [discriminate|].
  destruct (String.eqb token "*"); [discriminate|].
  destruct (String.eqb token "/").
  { destruct (PrimFloat.eqb b 0); [|discriminate].
    intros [= <-]. left. unfold own_error. auto. }
  destruct (String.eqb token "^"); [|discriminate].
  destruct (math_pow a b) as [v|e'] eqn:Hpow; [discriminate|].
  cbn [bind]. intros [= <-]. right. now exists a, b.
Qed.

Lemma evaluate_token_error (token : string) (stack : list float) (e : exception) :
  evaluate_token math_pow token stack = Raise e ->
  own_error e \/ raised_by_pow math_pow e.
Proof.
  unfold evaluate_token. destruct (float_of_string token); [discriminate|].
  destruct stack as [|b [|a stack]]; cbn [pop bind].
  - intros [= <-]. left. unfold own_error. auto.
  - apply apply_operator_error.
  - apply apply_operator_error.
Qed.

Lemma evaluate_tokens_error (rpn_expression : list string) :
  forall (stack : list float) (e : exception),
    evaluate_tokens math_pow rpn_expression stack = Raise e ->
    own_error e \/ raised_by_pow math_pow e.
Proof.
  induction rpn_expression as [|token rest IH]; intros stack e;
    cbn [evaluate_tokens]; [discriminate|].
  destruct (evaluate_token math_pow token stack) as [stack'|e'] eqn:Hstep.
  - cbn [bind]. apply IH.
  - cbn [bind]. intros [= <-]. exact (evaluate_token_error _ _ _ Hstep).
Qed.

Lemma evaluate_expression_error (expression : string) (e : exception) :
  evaluate_expression math_pow expression = Raise e ->
  own_error e \/ raised_by_pow math_pow e.
Proof.
  unfold evaluate_expression, infix_to_rpn.
  destruct (tokenize_string expression) as [tokens|e1] eqn:Htokens.
  - cbn [bind].
    destruct (rpn_of_tokens tokens) as [rpn_expression|e2] eqn:Hrpn.
    + cbn [bind]. unfold evaluate_rpn.
      destruct (evaluate_tokens math_pow rpn_expression []) as [stack|e3] eqn:Hrun.
      * cbn [bind]. intros Hbottom. left.
        rewrite (bottom_error stack e Hbottom). unfold own_error. auto.
      * cbn [bind]. intros [= <-]. exact (evaluate_tokens_error _ _ _ Hrun).
    + cbn [bind]. intros [= <-]. left.
      rewrite (rpn_of_tokens_error tokens e2 Hrpn). unfold own_error. auto.
  - cbn [bind]. intros [= <-]. left. left.
    exact (tokenize_string_error expression e1 Htokens).
Qed.

(** X8.  Whatever the expression, an evaluation that does not return a value
    raises one of four errors of its own, the [ValueError] of an unexpected
    character, the [IndexError] of a pop from the empty stack, the
    [IndexError] of reading the empty stack at the end, or the
    [ZeroDivisionError] of [/], or else an error that [math.pow] raised. *)
Theorem evaluation_errors (expression : string) (e : exception) :
  evaluate_expression math_pow expression = Raise e ->
  own_error e \/ raised_by_pow math_pow e.
Proof. apply evaluate_expression_error. Qed.

End Exceptions.

Lemma evaluation_errors_witness :
  own_error (IndexError "pop from empty list")
  \/ raised_by_pow pow_by_multiplication (IndexError "pop from empty list").
Proof.
  apply (evaluation_errors pow_by_multiplication "2+3)*4").
  reflexivity.
Defined.

(** ** An expression without [^] *)

Lemma char_in_append (c : ascii) (s t : string) :
  char_in c (s ++ t)%string = char_in c s || char_in c t.
Proof.
  induction s as [|d s IH]; cbn [append char_in]; [reflexivity|].
  now rewrite IH, orb_assoc.
Qed.

Lemma char_in_join (c : ascii) (token : string) (tokens : list string) :
  In token tokens -> char_in c token = true -> char_in c (join tokens) = true.
Proof.
  induction tokens as [|t tokens IH]; [contradiction|].
  cbn [join]. rewrite char_in_append. intros [->|Hin] Hc.
  - now rewrite Hc.
  - rewrite (IH Hin Hc). apply orb_true_r.
Qed.

Lemma char_in_remove_spaces (c : ascii) (expression : string) :
  char_in c (remove_spaces expression) = true -> char_in c expression = true.
Proof.
  induction expression as [|d expression IH]; cbn [remove_spaces char_in];
    [discriminate|].
  destruct (Ascii.eqb d " "); cbn [char_in].
  - intros H. rewrite (IH H). apply orb_true_r.
  - intros H. apply orb_true_iff in H as [H|H]; [now rewrite H|].
    rewrite (IH H). apply orb_true_r.
Qed.

Lemma tokenize_string_text (expression : string) (tokens : list string) :
  tokenize_string expression = Ok tokens ->
  join tokens = remove_spaces expression.
Proof.
  unfold tokenize_string.
  destruct (tokenize_from (remove_spaces expression) 0 (remove_spaces expression)
              ([], EmptyString)) as [[scanned current_number]|err] eqn:Hscan;
    [|discriminate].
  cbn [bind]. intros [= <-].
  now rewrite join_flush, (tokenize_from_text _ _ _ _ _ _ _ Hscan).
Qed.

Lemma rpn_tokens_from_input (tokens rpn_expression : list string) (token : string) :
  rpn_of_tokens tokens = Ok rpn_expression ->
  In token rpn_expression -> token <> "("%string -> In token tokens.
Proof.
  unfold rpn_of_tokens.
  destruct (convert_tokens tokens ([], [])) as [[output stack]|e] eqn:Hrun;
    [|discriminate].
  cbn [bind]. rewrite pop_all_app. intros [= <-] Hin Hne.
  destruct (convert_tokens_adds tokens [] [] output stack) as [Hperm _];
    [split; constructor | exact Hrun |].
  assert (Hfiltered : In token (filter not_left_paren (output ++ stack))).
  { apply filter_In. split; [exact Hin|]. unfold not_left_paren.
    now apply negb_true_iff, String.eqb_neq. }
  apply (Permutation_in _ Hperm) in Hfiltered.
  now apply filter_In in Hfiltered.
Qed.

Lemma evaluate_tokens_without_power
    (pow1 pow2 : float -> float -> result float) (rpn_expression : list string) :
  ~ In "^"%string rpn_expression ->
  forall stack : list float,
    evaluate_tokens pow1 rpn_expression stack
    = evaluate_tokens pow2 rpn_expression stack.
Proof.
  induction rpn_expression as [|token rest IH]; intros Hnot stack; [reflexivity|].
  cbn [evaluate_tokens].
  assert (Hstep : evaluate_token pow1 token stack = evaluate_token pow2 token stack).
  { unfold evaluate_token, apply_operator.
    destruct (String.eqb_spec token "^") as [->|_]; [|reflexivity].
    exfalso. apply Hnot. now left. }
  rewrite Hstep. destruct (evaluate_token pow2 token stack); [|reflexivity].
  cbn [bind]. apply IH. intros Hin. apply Hnot. now right.
Qed.

(** X9.  The evaluation of an expression in which the character [^] does not
    occur never calls [math.pow]: it is the same whatever [math.pow] does,
    and when it returns no value the error is one of the four of the stages
    themselves. *)
Theorem power_only_for_caret (pow1 pow2 : float -> float -> result float)
    (expression : string) :
  char_in "^" expression = false ->
  evaluate_expression pow1 expression = evaluate_expression pow2 expression /\
  (forall e : exception,
      evaluate_expression pow1 expression = Raise e -> own_error e).
Proof.
  intros Hcaret.
  assert (Hsame : forall pow3 : float -> float -> result float,
             evaluate_expression pow1 expression
             = evaluate_expression pow3 expression).
  { intros pow3. unfold evaluate_expression, infix_to_rpn.
    destruct (tokenize_string expression) as [tokens|e1] eqn:Htokens;
      [|reflexivity].
    cbn [bind].
    destruct (rpn_of_tokens tokens) as [rpn_expression|e2] eqn:Hrpn;
      [|reflexivity].
    cbn [bind]. unfold evaluate_rpn.
    rewrite (evaluate_tokens_without_power pow1 pow3 rpn_expression);
      [reflexivity|].
    intros Hin.
    apply (rpn_tokens_from_input tokens rpn_expression "^" Hrpn) in Hin;
      [|discriminate].
    pose proof (char_in_join "^" "^" tokens Hin eq_refl) as Hjoin.
    rewrite (tokenize_string_text expression tokens Htokens) in Hjoin.
    apply char_in_remove_spaces in Hjoin. congruence. }
  split; [apply Hsame|].
  intros e He. rewrite (Hsame (fun _ _ => Ok 0%float)) in He.
  destruct (evaluate_expression_error _ expression e He) as [Hown|(a & b & Hpow)];
    [exact Hown | discriminate Hpow].
Qed.

Lemma power_only_for_caret_witness :
  evaluate_expression pow_by_multiplication "(1.5+2.5)/(3-3)"
  = evaluate_expression (fun _ _ => Ok 0%float) "(1.5+2.5)/(3-3)".
Proof.
  apply (power_only_for_caret pow_by_multiplication (fun _ _ => Ok 0%float)
           "(1.5+2.5)/(3-3)").
  reflexivity.
Defined.

(** ** Spaces *)

Lemma tokenize_string_stripped (expression other : string) :
  remove_spaces expression = remove_spaces other ->
  tokenize_string expression = tokenize_string other.
Proof. unfold tokenize_string. now intros ->. Qed.

(** X10.  A space changes nothing wherever it stands, between two digits of a
    number as well: the tokens and the evaluation of [before ++ " " ++ rest]
    are those of [before ++ rest]. *)
Theorem spaces_are_ignored (math_pow : float -> float -> result float)
    (before rest : string) :
  tokenize_string (before ++ String " " rest)%string
  = tokenize_string (before ++ rest)%string /\
  evaluate_expression math_pow (before ++ String " " rest)%string
  = evaluate_expression math_pow (before ++ rest)%string.
Proof.
  assert (H : tokenize_string (before ++ String " " rest)%string
              = tokenize_string (before ++ rest)%string).
  { apply tokenize_string_stripped. now rewrite !remove_spaces_append. }
  split; [exact H|].
  unfold evaluate_expression, infix_to_rpn. now rewrite H.
Qed.

(** ** The shape of the tokens *)

Lemma number_chars_snoc (s : string) (c : ascii) :
  number_chars s = true -> isdigit c || Ascii.eqb c "." = true ->
  number_chars (s ++ str c)%string = true.
Proof.
  intros Hs Hc. induction s as [|d s IH]; cbn [append number_chars str] in *.
  - now rewrite Hc.
  - apply andb_true_iff in Hs as [Hd Hs]. now rewrite Hd, (IH Hs).
Qed.

Lemma digit_is_not_minus (c : ascii) :
  isdigit c || Ascii.eqb c "." = true -> Ascii.eqb c "-" = false.
Proof.
  intros H. destruct (Ascii.eqb_spec c "-") as [->|]; [discriminate H | reflexivity].
Qed.

Lemma pending_shape_snoc (current_number : string) (c : ascii) :
  pending_shape current_number = true ->
  isdigit c || Ascii.eqb c "." = true ->
  pending_shape (current_number ++ str c)%string = true.
Proof.
  intros Hshape Hc. unfold pending_shape.
  assert (Hnum : number_text (current_number ++ str c)%string = true);
    [|rewrite Hnum; apply orb_true_r].
  destruct current_number as [|d s].
  - cbn [append str number_text number_chars].
    now rewrite (digit_is_not_minus c Hc), Hc.
  - unfold pending_shape in Hshape. cbn [append number_text] in *.
    destruct (Ascii.eqb_spec d "-") as [->|Hd].
    + destruct s as [|d' s].
      * cbn [append str String.eqb negb andb number_chars]. now rewrite Hc.
      * cbn in Hshape. change (number_chars (String d' s) = true) in Hshape.
        change (negb (String.eqb (String d' s ++ str c) EmptyString)
                && number_chars (String d' s ++ str c) = true)%string.
        cbn [append String.eqb negb andb].
        exact (number_chars_snoc (String d' s) c Hshape Hc).
    + assert (Hs : number_chars (String d s) = true).
      { apply orb_true_iff in Hshape as [Hshape|Hshape]; [|exact Hshape].
        apply orb_true_iff in Hshape as [Hshape|Hshape]; [discriminate Hshape|].
        apply String.eqb_eq in Hshape. injection Hshape as -> _. congruence. }
      now apply (number_chars_snoc (String d s)).
Qed.

Lemma flush_shape (tokens : list string) (current_number : string) :
  Forall (fun token => token_shape token = true) tokens ->
  pending_shape current_number = true ->
  Forall (fun token => token_shape token = true) (flush tokens current_number).
Proof.
  intros Htokens Hshape. destruct current_number as [|c s]; [exact Htokens|].
  cbn [flush]. apply Forall_app. split; [exact Htokens|].
  constructor; [|constructor]. unfold pending_shape in Hshape.
  apply orb_true_iff in Hshape as [Hshape|Hshape].
  - apply orb_true_iff in Hshape as [Hshape|Hshape]; [discriminate Hshape|].
    apply String.eqb_eq in Hshape. now rewrite Hshape.
  - unfold token_shape. rewrite Hshape. apply orb_true_r.
Qed.

Lemma tokenize_char_shape (expression : string) (i : nat) (char : ascii)
    (tokens tokens' : list string) (current_number current_number' : string) :
  tokenize_char expression i char (tokens, current_number)
  = Ok (tokens', current_number') ->
  Forall (fun token => token_shape token = true) tokens ->
  pending_shape current_number = true ->
  Forall (fun token => token_shape token = true) tokens'
  /\ pending_shape current_number' = true.
Proof.
  unfold tokenize_char. intros Hstep Htokens Hshape.
  destruct (isdigit char || Ascii.eqb char ".") eqn:Hdigit.
  { injection Hstep as <- <-. split; [exact Htokens|].
    now apply pending_shape_snoc. }
  destruct (Ascii.eqb char "-" && ((i =? 0) || after_operator_or_paren expression i))
    eqn:Hminus.
  { injection Hstep as <- <-. split; [now apply flush_shape|].
    apply andb_true_iff in Hminus as [Hminus _].
    apply Ascii.eqb_eq in Hminus. now subst char. }
  destruct (in_operators (str char) || char_in char "()") eqn:Hsymbol;
    [|discriminate].
  injection Hstep as <- <-. split; [|reflexivity].
  apply Forall_app. split; [now apply flush_shape|].
  constructor; [|constructor]. unfold token_shape.
  apply orb_true_iff in Hsymbol as [Hop|Hparen]; [now rewrite Hop|].
  cbn [char_in] in Hparen. rewrite orb_false_r in Hparen.
  apply orb_true_iff in Hparen as [H|H]; apply Ascii.eqb_eq in H; subst char;
    reflexivity.
Qed.

Lemma tokenize_from_shape (expression rest : string) :
  forall (i : nat) (tokens tokens' : list string)
         (current_number current_number' : string),
    tokenize_from expression i rest (tokens, current_number)
    = Ok (tokens', current_number') ->
    Forall (fun token => token_shape token = true) tokens ->
    pending_shape current_number = true ->
    Forall (fun token => token_shape token = true) tokens'
    /\ pending_shape current_number' = true.
Proof.
  induction rest as [|char rest IH];
    intros i tokens tokens' current_number current_number'; cbn [tokenize_from].
  - intros [= <- <-]. now split.
  - destruct (tokenize_char expression i char (tokens, current_number))
      as [[tokens1 current1]|err] eqn:Hchar; [|discriminate].
    cbn [bind]. intros Hrest Htokens Hshape.
    destruct (tokenize_char_shape _ _ _ _ _ _ _ Hchar Htokens Hshape) as [H1 H2].
    exact (IH _ _ _ _ _ Hrest H1 H2).
Qed.

(** X11.  Every token that [tokenize_string] returns is an operator symbol
    (the text [-] of a sign that no digit followed included), a parenthesis,
    or a text of digits and points, with at least one of them, after at most
    one [-]; no token is empty. *)
Theorem tokens_have_shape (expression : string) (tokens : list string) :
  tokenize_string expression = Ok tokens ->
  Forall (fun token => token_shape token = true) tokens /\
  ~ In EmptyString tokens.
Proof.
  unfold tokenize_string.
  destruct (tokenize_from (remove_spaces expression) 0 (remove_spaces expression)
              ([], EmptyString)) as [[scanned current_number]|err] eqn:Hscan;
    [|discriminate].
  cbn [bind]. intros [= <-].
  destruct (tokenize_from_shape _ _ _ _ _ _ _ Hscan) as [H1 H2];
    [constructor | reflexivity |].
  pose proof (flush_shape scanned current_number H1 H2) as Hshape.
  split; [exact Hshape|].
  intros Hin. rewrite Forall_forall in Hshape. apply Hshape in Hin.
  discriminate Hin.
Qed.

Lemma tokens_have_shape_witness :
  Forall (fun token => token_shape token = true)
    ["-"; "("; "-.5"; "^"; "1.2.3"; ")"; "-7"]%string.
Proof.
  apply (tokens_have_shape "-(-.5 ^ 1.2.3)-7"
           ["-"; "("; "-.5"; "^"; "1.2.3"; ")"; "-7"]%string).
  reflexivity.
Defined.

(** ** The whole operator table: the three stages against the value *)

Lemma sign_entry (op : operator) :
  lookup (sign op) operators = Some (precedence op, associates op).
Proof. destruct op; reflexivity. Qed.

Lemma sign_in_operators (op : operator) : in_operators (sign op) = true.
Proof. destruct op; reflexivity. Qed.

Lemma literal_is_number (s : string) :
  literal s = true -> exists x, float_of_string s = Some x.
Proof.
  unfold literal, check_is_number. intros H.
  apply andb_true_iff in H as [H _].
  destruct (float_of_string s) as [x|]; [eauto | discriminate].
Qed.

Section TermPostfix.

Variable math_pow : float -> float -> result float.

Lemma apply_sign (op : operator) (a b : float) (stack : list float) :
  apply_operator math_pow (sign op) a b stack
  = (v <- operate math_pow op a b ;; Ok (v :: stack)).
Proof.
  destruct op; try reflexivity.
  cbn [sign operate]. rewrite evaluate_divide.
  destruct (PrimFloat.eqb b 0); reflexivity.
Qed.

Lemma evaluate_tokens_term_rpn (e : term) :
  literals_ok e = true ->
  forall (rest : list string) (stack : list float),
    evaluate_tokens math_pow (term_rpn e ++ rest) stack
    = (v <- term_value math_pow e ;; evaluate_tokens math_pow rest (v :: stack)).
Proof.
  induction e as [s|op lhs IHl rhs IHr|inner IH];
    cbn [literals_ok term_rpn term_value]; intros Hok rest stack.
  - destruct (literal_is_number s Hok) as [x Hx].
    cbn [app evaluate_tokens]. unfold evaluate_token. now rewrite Hx.
  - apply andb_true_iff in Hok as [Hl Hr].
    rewrite <- !app_assoc, (IHl Hl).
    destruct (term_value math_pow lhs) as [a|err]; [|reflexivity]. cbn [bind].
    rewrite (IHr Hr).
    destruct (term_value math_pow rhs) as [b|err]; [|reflexivity].
    cbn [bind app evaluate_tokens].
    rewrite (evaluate_not_number math_pow (sign op) (b :: a :: stack)
               (operator_not_number _ (sign_in_operators op))).
    cbn [pop bind]. rewrite apply_sign.
    destruct (operate math_pow op a b); reflexivity.
  - now apply IH.
Qed.

Lemma evaluate_rpn_term_value (e : term) :
  literals_ok e = true ->
  evaluate_rpn math_pow (term_rpn e) = term_value math_pow e.
Proof.
  intros Hok. unfold evaluate_rpn.
  rewrite <- (app_nil_r (term_rpn e)), (evaluate_tokens_term_rpn e Hok).
  destruct (term_value math_pow e); reflexivity.
Qed.

End TermPostfix.

Lemma pops_sign (op : operator) (top : string) :
  pops (sign op) top = at_least (left_level op) top.
Proof.
  unfold pops, at_least. rewrite sign_entry.
  destruct (lookup top operators) as [[top_precedence top_assoc]|];
    [|reflexivity].
  destruct op; reflexivity.
Qed.

Lemma pop_held (op : operator) (held : list string) :
  Forall (fun token => at_least (left_level op) token = true) held ->
  forall output stack : list string,
    low (left_level op) stack = true ->
    pop_operators (sign op) output (held ++ stack) = (output ++ held, stack).
Proof.
  induction 1 as [|top held Htop _ IH]; intros output stack Hlow.
  - rewrite app_nil_r. destruct stack as [|top stack]; [reflexivity|].
    cbn [app pop_operators low] in *. rewrite pops_sign.
    now destruct (at_least (left_level op) top).
  - cbn [app pop_operators]. rewrite pops_sign, Htop, (IH _ _ Hlow).
    now rewrite <- app_assoc.
Qed.

Lemma threshold_mono (c c' : nat) : c <= c' -> threshold c <= threshold c'.
Proof.
  destruct c as [|[|[|c]]]; destruct c' as [|[|[|c']]]; cbn; lia.
Qed.

Lemma threshold_levels (op : operator) :
  precedence op <= left_level op /\
  precedence op <= right_level op /\
  threshold (precedence op) <= left_level op /\
  precedence op < threshold (right_level op).
Proof. destruct op; cbn; lia. Qed.

Lemma at_least_sign (c : nat) (op : operator) :
  c <= precedence op -> at_least c (sign op) = true.
Proof.
  intros H. unfold at_least. rewrite sign_entry. now apply Nat.leb_le.
Qed.

Lemma term_pending_at_least (e : term) (c : nat) :
  Forall (fun token => at_least c token = true) (term_pending c e).
Proof.
  revert c; induction e as [s|op lhs _ rhs IHr|inner _]; intros c;
    cbn [term_pending]; try constructor.
  destruct (Nat.ltb_spec (precedence op) c) as [Hlt|Hge]; [constructor|].
  destruct (threshold_levels op) as (_ & Hright & _).
  apply Forall_app. split.
  - eapply Forall_impl; [|apply (IHr (right_level op))].
    intros token. apply at_least_weaken. lia.
  - constructor; [|constructor]. now apply at_least_sign.
Qed.

Lemma convert_literal (token : string) (output stack : list string) :
  literal token = true ->
  convert_token token (output, stack) = Ok (output ++ [token], stack).
Proof.
  unfold literal, convert_token. intros H.
  apply andb_true_iff in H as [H _]. now rewrite H.
Qed.

Lemma reads_apply (op : operator) (left_tokens right_tokens : list string)
    (left_pending left_rpn right_pending right_rpn : list string) :
  Forall (fun token => at_least (left_level op) token = true) left_pending ->
  reads left_tokens (threshold (left_level op)) left_pending left_rpn ->
  reads right_tokens (threshold (right_level op)) right_pending right_rpn ->
  reads (left_tokens ++ [sign op] ++ right_tokens) (threshold (precedence op))
        (right_pending ++ [sign op]) (left_rpn ++ right_rpn ++ [sign op]).
Proof.
  intros Hheld Hleft Hright rest output stack Hlow.
  destruct (threshold_levels op) as (Hpl & _ & Htl & Htr).
  destruct (Hleft ([sign op] ++ right_tokens ++ rest) output stack)
    as (output1 & Hrun1 & Hout1).
  { apply (low_weaken (threshold (precedence op))); [|exact Hlow].
    now apply threshold_mono. }
  destruct (Hright rest (output ++ left_rpn) (sign op :: stack))
    as (output2 & Hrun2 & Hout2).
  { cbn [low]. unfold at_least. rewrite sign_entry.
    apply negb_true_iff, Nat.leb_gt. exact Htr. }
  exists output2. split.
  - rewrite <- !app_assoc, Hrun1. cbn [app convert_tokens].
    rewrite (convert_operator _ _ _ (sign_in_operators op)).
    rewrite (pop_held op left_pending Hheld);
      [|apply (low_weaken (threshold (precedence op))); assumption].
    rewrite Hout1. exact Hrun2.
  - rewrite !app_assoc, Hout2. reflexivity.
Qed.

Lemma reads_term (e : term) :
  literals_ok e = true ->
  forall c : nat,
    reads (term_tokens c e) (threshold c) (term_pending c e) (term_rpn e).
Proof.
  induction e as [s|op lhs IHl rhs IHr|inner IH];
    cbn [literals_ok term_tokens term_pending term_rpn]; intros Hok c.
  - intros rest output stack _. exists (output ++ [s]). split.
    + cbn [app convert_tokens]. now rewrite (convert_literal s _ _ Hok).
    + now rewrite app_nil_r.
  - apply andb_true_iff in Hok as [Hl Hr].
    pose proof (reads_apply op _ _ _ _ _ _
                  (term_pending_at_least lhs (left_level op))
                  (IHl Hl (left_level op)) (IHr Hr (right_level op))) as Hbody.
    destruct (threshold_levels op) as (_ & Hright & _).
    destruct (Nat.ltb_spec (precedence op) c) as [Hlt|Hge].
    + apply (reads_parenthesized _ (term_pending (right_level op) rhs ++ [sign op])
               _ (threshold c) 0).
      * apply Forall_app. split.
        -- eapply Forall_impl; [|apply (term_pending_at_least rhs (right_level op))].
           intros token. apply at_least_weaken. lia.
        -- constructor; [|constructor]. apply at_least_sign. lia.
      * apply (reads_weaken _ _ _ 0 (threshold (precedence op))); [lia | exact Hbody].
    + apply (reads_weaken _ _ _ (threshold c) (threshold (precedence op)));
        [now apply threshold_mono | exact Hbody].
  - apply (reads_parenthesized _ (term_pending 1 inner) _ (threshold c) 0).
    + eapply Forall_impl; [|apply (term_pending_at_least inner 1)].
      intros token. apply at_least_weaken. lia.
    + apply (reads_weaken _ _ _ 0 (threshold 1)); [lia | now apply IH].
Qed.

Lemma rpn_of_term_tokens (e : term) :
  literals_ok e = true -> rpn_of_tokens (term_tokens 1 e) = Ok (term_rpn e).
Proof.
  intros Hok. unfold rpn_of_tokens.
  destruct (reads_term e Hok 1 [] [] [] eq_refl) as (output & Hrun & Hout).
  rewrite app_nil_r in Hrun. rewrite Hrun. cbn [convert_tokens bind].
  rewrite app_nil_r, pop_all_app. now rewrite Hout.
Qed.

(** *** The tokenizer on the written form, with signed literals *)

Lemma literal_parts (s : string) :
  literal s = true ->
  (exists n, s = String "-" n /\ n <> EmptyString /\ digits_and_points n = true)
  \/ (s <> EmptyString /\ digits_and_points s = true).
Proof.
  unfold literal. intros H. apply andb_true_iff in H as [_ H].
  destruct s as [|c s]; [discriminate|].
  destruct (Ascii.eqb_spec c "-") as [->|_].
  - left. exists s. apply andb_true_iff in H as [Hne Hd].
    repeat split; [|exact Hd]. intros ->. discriminate Hne.
  - right. split; [discriminate | exact H].
Qed.

Lemma literal_last_char (s : string) :
  literal s = true ->
  s <> EmptyString /\
  exists c, last_char s = Some c /\ is_ascii_digit c || Ascii.eqb c "." = true.
Proof.
  intros H. destruct (literal_parts s H) as [(n & -> & Hne & Hd)|[Hne Hd]].
  - split; [discriminate|].
    change (String "-" n) with ("-" ++ n)%string.
    rewrite (last_char_append "-" n Hne). now apply last_char_digits.
  - split; [exact Hne | now apply last_char_digits].
Qed.

(** [H] says that [token] is one of the tokens [+ * / ^ ( )]. *)
Ltac each_sign H token :=
  repeat (apply orb_true_iff in H as [H|H]);
  apply String.eqb_eq in H; subst token.

Lemma scan_sign_token (token : string) :
  String.eqb token "+" || String.eqb token "*" || String.eqb token "/"
  || String.eqb token "^" || String.eqb token "(" || String.eqb token ")" = true ->
  (forall (expression : string) (i : nat) (rest : string)
          (tokens : list string) (current_number : string),
      tokenize_from expression i (token ++ rest)%string (tokens, current_number)
      = tokenize_from expression (S i) rest
          (flush tokens current_number ++ [token], EmptyString)) /\
  String.length token = 1 /\
  (forall before : string,
      exists c, last_char (before ++ token)%string = Some c
                /\ char_in c "(-+*/^)" = true).
Proof.
  intros H.
  assert (Hlast : forall (before : string) (c : ascii),
             last_char (before ++ str c)%string = Some c).
  { intros before c. now rewrite last_char_append. }
  each_sign H token; (split; [reflexivity | split; [reflexivity|]]);
    intros before; eexists; (split; [apply Hlast | reflexivity]).
Qed.

Lemma scan_negative (before rest : string)
    (tokens : list string) (current_number : string) :
  before = EmptyString \/
  (exists c, last_char before = Some c /\ char_in c "(-+*/^)" = true) ->
  tokenize_from (before ++ String "-" rest)%string (String.length before)
    (String "-" rest) (tokens, current_number)
  = tokenize_from (before ++ String "-" rest)%string (S (String.length before))
      rest (flush tokens current_number, "-"%string).
Proof.
  intros Hbefore. cbn [tokenize_from]. rewrite tokenize_minus.
  destruct Hbefore as [->|(c & Hlast & Hc)]; [reflexivity|].
  assert (Hne : before <> EmptyString) by (intros ->; discriminate Hlast).
  replace (after_operator_or_paren (before ++ String "-" rest)
             (String.length before)) with true; [now rewrite orb_true_r|].
  symmetry. apply (after_operator_or_paren_spec before (String "-" rest) Hne).
  right. exists c. split; [exact Hlast|]. now apply char_in_spec in Hc.
Qed.

Lemma read_tokens (tokens : list string) :
  forall (previous before : string)
         (scanned : list string) (current_number : string),
    readable previous tokens = true ->
    reading previous before current_number ->
    exists scanned' current_number',
      tokenize_from (before ++ join tokens)%string (String.length before)
        (join tokens) (scanned, current_number)
      = Ok (scanned', current_number')
      /\ flush scanned' current_number'
         = flush scanned current_number ++ tokens.
Proof.
  induction tokens as [|token tokens IH];
    intros previous before scanned current_number Hread Hstate.
  - exists scanned, current_number. split; [reflexivity | now rewrite app_nil_r].
  - cbn [readable] in Hread. apply andb_true_iff in Hread as [Hafter Hread].
    cbn [join]. rewrite <- append_assoc.
    specialize (IH token (before ++ token)%string).
    rewrite length_append in IH.
    unfold comes_after in Hafter. unfold reading in Hstate.
    destruct (literal token) eqn:Hlit.
    + apply negb_true_iff in Hafter. rewrite Hafter in Hstate.
      destruct Hstate as [-> Hbefore].
      destruct (literal_last_char token Hlit) as [Hne Hlast].
      assert (Hscan :
        tokenize_from ((before ++ token) ++ join tokens)%string
          (String.length before) (token ++ join tokens)%string
          (scanned, EmptyString)
        = tokenize_from ((before ++ token) ++ join tokens)%string
            (String.length before + String.length token) (join tokens)
            (scanned, token)).
      { destruct (literal_parts token Hlit) as [(n & -> & _ & Hd)|[_ Hd]].
        - rewrite append_assoc. cbn [append].
          rewrite (scan_negative before (n ++ join tokens) scanned EmptyString Hbefore).
          cbn [flush]. rewrite (scan_numeral n Hd). cbn [String.length].
          now rewrite Nat.add_succ_r.
        - now rewrite (scan_numeral token Hd). }
      rewrite append_assoc in Hscan |- *. rewrite Hscan.
      rewrite <- append_assoc.
      destruct (IH scanned token Hread) as (scanned' & current' & Hrun & Hflush).
      { unfold reading. rewrite Hlit. split; [reflexivity|].
        now rewrite (last_char_append before token Hne). }
      exists scanned', current'. split; [exact Hrun|].
      rewrite Hflush, (flush_numeral scanned token Hne), <- app_assoc.
      reflexivity.
    + destruct (String.eqb_spec token "-") as [->|Hminus].
      * rewrite Hafter in Hstate.
        destruct Hstate as [-> (c & Hlast & Hc)].
        rewrite append_assoc. cbn [append].
        rewrite (scan_minus before (join tokens) c scanned previous Hlast Hc).
        change (String "-" (join tokens)) with ("-" ++ join tokens)%string.
        rewrite <- append_assoc.
        destruct (IH (flush scanned previous ++ ["-"%string]) EmptyString Hread)
          as (scanned' & current' & Hrun & Hflush).
        { unfold reading. change (literal "-") with false. cbv iota.
          split; [reflexivity|]. right. exists "-"%char.
          split; [now rewrite last_char_append | reflexivity]. }
        replace (S (String.length before))
          with (String.length before + String.length "-") by (simpl; lia).
        exists scanned', current'. split; [exact Hrun|].
        rewrite Hflush. cbn [flush]. now rewrite <- app_assoc.
      * destruct (scan_sign_token token Hafter) as (Hscan & Hlen & Hlast).
        rewrite append_assoc, (Hscan _ _ _ scanned current_number).
        rewrite <- append_assoc.
        destruct (IH (flush scanned current_number ++ [token]) EmptyString Hread)
          as (scanned' & current' & Hrun & Hflush).
        { unfold reading. rewrite Hlit. split; [reflexivity|]. right.
          apply Hlast. }
        rewrite Hlen, Nat.add_1_r in Hrun.
        exists scanned', current'. split; [exact Hrun|].
        rewrite Hflush. cbn [flush]. now rewrite <- app_assoc.
Qed.

Lemma remove_spaces_literal (s : string) :
  literal s = true -> remove_spaces s = s.
Proof.
  intros H. destruct (literal_parts s H) as [(n & -> & _ & Hd)|[_ Hd]].
  - cbn [remove_spaces]. change (Ascii.eqb "-" " ") with false. cbv iota.
    now rewrite (remove_spaces_digits n Hd).
  - now apply remove_spaces_digits.
Qed.

Lemma remove_spaces_readable (tokens : list string) (previous : string) :
  readable previous tokens = true -> remove_spaces (join tokens) = join tokens.
Proof.
  revert previous; induction tokens as [|token tokens IH]; intros previous;
    [reflexivity|].
  cbn [readable join]. intros H. apply andb_true_iff in H as [Hafter Hread].
  rewrite remove_spaces_append, (IH _ Hread). f_equal.
  unfold comes_after in Hafter. destruct (literal token) eqn:Hlit.
  - now apply remove_spaces_literal.
  - destruct (String.eqb_spec token "-") as [->|_]; [reflexivity|].
    each_sign Hafter token; reflexivity.
Qed.

Lemma tokenize_string_readable (tokens : list string) :
  readable EmptyString tokens = true -> tokenize_string (join tokens) = Ok tokens.
Proof.
  intros H. unfold tokenize_string.
  rewrite (remove_spaces_readable tokens EmptyString H).
  destruct (read_tokens tokens EmptyString EmptyString [] EmptyString H)
    as (scanned & current_number & Hrun & Hflush).
  { unfold reading. change (literal EmptyString) with false. cbv iota.
    split; [reflexivity | now left]. }
  cbn [append String.length] in Hrun. rewrite Hrun. cbn [bind].
  now rewrite Hflush.
Qed.

Lemma opener_not_literal (p : string) :
  opener p = true -> literal p = false.
Proof.
  unfold opener. intros H.
  apply orb_true_iff in H as [H|H]; [apply orb_true_iff in H as [H|H]|].
  - unfold literal. now rewrite (operator_not_number p H).
  - apply String.eqb_eq in H. now subst p.
  - apply String.eqb_eq in H. now subst p.
Qed.

Lemma comes_after_sign (op : operator) (last : string) :
  term_closer last = true ->
  String.eqb last ")" && String.eqb (sign op) "-" = false ->
  comes_after last (sign op) = true.
Proof.
  unfold term_closer. intros Hclose Hminus.
  destruct op; try reflexivity.
  unfold comes_after. cbn [sign] in *. change (literal "-") with false.
  cbn [String.eqb Ascii.eqb Bool.eqb] in *. cbv iota.
  rewrite andb_true_r in Hminus. now rewrite Hminus, orb_false_r in Hclose.
Qed.

Lemma readable_parenthesized (body : list string) :
  (forall rest : list string,
      paren_then_minus "(" (body ++ rest) = false ->
      term_continues rest -> readable "(" (body ++ rest) = true) ->
  forall (previous : string) (rest : list string),
    paren_then_minus previous ((["("%string] ++ body ++ [")"%string]) ++ rest)
    = false ->
    term_continues rest ->
    readable previous ((["("%string] ++ body ++ [")"%string]) ++ rest) = true.
Proof.
  intros Hbody previous rest Hminus Hrest.
  rewrite <- !app_assoc in *. cbn [app readable paren_then_minus] in *.
  apply orb_false_iff in Hminus as [_ Hminus].
  apply andb_true_iff. split; [reflexivity|].
  apply Hbody; [exact Hminus|].
  intros last Hlast Hlast_minus. cbn [readable paren_then_minus] in *.
  apply orb_false_iff in Hlast_minus as [_ Hlast_minus].
  apply andb_true_iff. split; [reflexivity|].
  now apply Hrest.
Qed.

Lemma readable_term (e : term) :
  literals_ok e = true ->
  forall (c : nat) (previous : string) (rest : list string),
    opener previous = true ->
    paren_then_minus previous (term_tokens c e ++ rest) = false ->
    term_continues rest ->
    readable previous (term_tokens c e ++ rest) = true.
Proof.
  induction e as [s|op lhs IHl rhs IHr|inner IH];
    cbn [literals_ok term_tokens]; intros Hok c previous rest Hopen Hminus Hrest.
  - cbn [app readable paren_then_minus] in *.
    apply orb_false_iff in Hminus as [_ Hminus].
    apply andb_true_iff. split.
    + unfold comes_after. rewrite Hok.
      now rewrite (opener_not_literal previous Hopen).
    + apply Hrest; [|exact Hminus]. unfold term_closer. now rewrite Hok.
  - apply andb_true_iff in Hok as [Hl Hr].
    assert (Hbody : forall (previous : string) (rest : list string),
               opener previous = true ->
               paren_then_minus previous
                 ((term_tokens (left_level op) lhs ++ [sign op]
                   ++ term_tokens (right_level op) rhs) ++ rest) = false ->
               term_continues rest ->
               readable previous
                 ((term_tokens (left_level op) lhs ++ [sign op]
                   ++ term_tokens (right_level op) rhs) ++ rest) = true).
    { clear previous rest Hopen Hminus Hrest.
      intros previous rest Hopen Hminus Hrest. rewrite <- !app_assoc in *.
      apply (IHl Hl); [exact Hopen | exact Hminus|].
      intros last Hlast Hlast_minus. cbn [app readable paren_then_minus] in *.
      apply orb_false_iff in Hlast_minus as [Hhead Hlast_minus].
      apply andb_true_iff. split; [now apply comes_after_sign|].
      apply (IHr Hr); [|exact Hlast_minus | exact Hrest].
      unfold opener. now rewrite sign_in_operators. }
    destruct (precedence op <? c).
    + apply readable_parenthesized; [|exact Hminus | exact Hrest].
      intros rest' Hminus' Hrest'. now apply Hbody.
    + now apply Hbody.
  - apply readable_parenthesized; [|exact Hminus | exact Hrest].
    intros rest' Hminus' Hrest'. now apply (IH Hok).
Qed.

Lemma tokenize_term_text (e : term) :
  literals_ok e = true ->
  minus_after_paren (term_tokens 1 e) = false ->
  tokenize_string (term_text e) = Ok (term_tokens 1 e).
Proof.
  intros Hok Hminus. apply tokenize_string_readable.
  rewrite <- (app_nil_r (term_tokens 1 e)).
  apply (readable_term e Hok); [reflexivity | now rewrite app_nil_r|].
  intros last _ _. reflexivity.
Qed.

(** X12.  For every expression over the five operators of the table, with
    literals that may be signed, written with the precedence and the
    associativity of the table ([^] grouping to the right), and in which no
    operator [-] stands right after a [)]: [tokenize_string] returns the tokens
    of the written form, [infix_to_rpn] its postfix form, and
    [evaluate_expression] its value, where [^] is [math.pow] and a zero
    divisor raises [ZeroDivisionError]. *)
Theorem evaluate_expression_term (math_pow : float -> float -> result float)
    (e : term) :
  literals_ok e = true ->
  minus_after_paren (term_tokens 1 e) = false ->
  tokenize_string (term_text e) = Ok (term_tokens 1 e) /\
  infix_to_rpn (term_text e) = Ok (term_rpn e) /\
  evaluate_expression math_pow (term_text e) = term_value math_pow e.
Proof.
  intros Hok Hminus.
  assert (Hrpn : infix_to_rpn (term_text e) = Ok (term_rpn e)).
  { unfold infix_to_rpn. rewrite (tokenize_term_text e Hok Hminus). cbn [bind].
    now apply rpn_of_term_tokens. }
  split; [now apply tokenize_term_text | split; [exact Hrpn|]].
  unfold evaluate_expression. rewrite Hrpn. cbn [bind].
  now apply evaluate_rpn_term_value.
Qed.

Lemma evaluate_expression_term_witness :
  evaluate_expression pow_by_multiplication "-53+-24" = Ok (-77)%float
  /\ evaluate_expression pow_by_multiplication "2*3^2^2-(-1.5+4^2)/-.5"
     = Ok 191%float.
Proof.
  split.
  - apply (evaluate_expression_term pow_by_multiplication
             (Apply Plus (Number "-53") (Number "-24")));
      reflexivity.
  - apply (evaluate_expression_term pow_by_multiplication
             (Apply Minus
                (Apply Times (Number "2")
                   (Apply Power (Number "3") (Apply Power (Number "2") (Number "2"))))
                (Apply Divide
                   (Apply Plus (Number "-1.5") (Apply Power (Number "4") (Number "2")))
                   (Number "-.5"))));
      reflexivity.
Defined.

(** ** A sign before a parenthesis at the start *)

Lemma paren_then_minus_snoc (previous : string) (tokens : list string) :
  paren_then_minus previous (tokens ++ [")"%string])
  = paren_then_minus previous tokens.
Proof.
  revert previous; induction tokens as [|token tokens IH]; intros previous;
    cbn [app paren_then_minus].
  - change (String.eqb ")" "-") with false. now rewrite andb_false_r.
  - now rewrite IH.
Qed.

Lemma paren_then_minus_start (tokens : list string) :
  paren_then_minus "(" tokens = paren_then_minus EmptyString tokens.
Proof. destruct tokens; reflexivity. Qed.

Lemma tokenize_signed_group (e : term) :
  literals_ok e = true ->
  minus_after_paren (term_tokens 1 e) = false ->
  tokenize_string ("-(" ++ term_text e ++ ")")%string
  = Ok ("-"%string :: "("%string :: term_tokens 1 e ++ [")"%string]).
Proof.
  intros Hok Hminus.
  assert (Hread : readable "(" (term_tokens 1 e ++ [")"%string]) = true).
  { apply (readable_term e Hok); [reflexivity | |].
    - now rewrite paren_then_minus_snoc, paren_then_minus_start.
    - intros last _ _. reflexivity. }
  unfold term_text. rewrite <- join_snoc. unfold tokenize_string.
  rewrite remove_spaces_append, (remove_spaces_readable _ _ Hread).
  change (remove_spaces "-(") with "-("%string.
  set (tokens := term_tokens 1 e ++ [")"%string]) in *.
  destruct (read_tokens tokens "(" "-(" ["-"; "("]%string EmptyString Hread)
    as (scanned & current_number & Hrun & Hflush).
  { unfold reading. change (literal "(") with false. cbv iota.
    split; [reflexivity|]. right. exists "("%char. now split. }
  cbn [String.length] in Hrun.
  assert (Hstart :
    tokenize_from ("-(" ++ join tokens)%string 0 ("-(" ++ join tokens)%string
      ([], EmptyString)
    = tokenize_from ("-(" ++ join tokens)%string 2 (join tokens)
        (["-"; "("]%string, EmptyString)).
  { change (tokenize_from ("-(" ++ join tokens)%string 0
              ("-(" ++ join tokens)%string ([], EmptyString))
      with (tokenize_from (EmptyString ++ String "-" ("(" ++ join tokens))%string
              (String.length EmptyString) (String "-" ("(" ++ join tokens)%string)
              ([], EmptyString)).
    rewrite (scan_negative EmptyString ("(" ++ join tokens) [] EmptyString
               (or_introl eq_refl)).
    rewrite (proj1 (scan_sign_token "(" eq_refl)). reflexivity. }
  rewrite Hstart, Hrun. cbn [bind]. now rewrite Hflush.
Qed.

(** X13.  A [-] at the start of the text before a parenthesised expression
    negates it.  For an expression [e] over the five operators whose literals
    [float] reads and whose written form has no operator [-] right after a
    [)], the sign becomes an operator with one operand: the postfix form of
    [-(e)] is that of [e] followed by [-], and the evaluation of [-(e)] is
    [0.0 - v] for the value [v] of [e] (so [0.0], not [-0.0], for a zero). *)
Theorem leading_minus_negates (math_pow : float -> float -> result float)
    (e : term) :
  literals_ok e = true ->
  minus_after_paren (term_tokens 1 e) = false ->
  infix_to_rpn ("-(" ++ term_text e ++ ")")%string
  = Ok (term_rpn e ++ ["-"%string]) /\
  evaluate_expression math_pow ("-(" ++ term_text e ++ ")")%string
  = (v <- term_value math_pow e ;; Ok (0 - v)%float).
Proof.
  intros Hok Hminus.
  assert (Hrpn : infix_to_rpn ("-(" ++ term_text e ++ ")")%string
                 = Ok (term_rpn e ++ ["-"%string])).
  { unfold infix_to_rpn. rewrite (tokenize_signed_group e Hok Hminus).
    cbn [bind]. unfold rpn_of_tokens.
    change (convert_tokens
              ("-"%string :: "("%string :: term_tokens 1 e ++ [")"%string])
              ([], []))
      with (st <- convert_token "-" ([], []) ;;
            convert_tokens (["("%string] ++ term_tokens 1 e ++ [")"%string]) st).
    change (convert_token "-" ([], [])) with (Ok (@nil string, ["-"%string])).
    cbn [bind].
    assert (Hgroup : reads (["("%string] ++ term_tokens 1 e ++ [")"%string]) 2
                       [] (term_rpn e)).
    { apply (reads_parenthesized _ (term_pending 1 e) _ 2 0).
      - eapply Forall_impl; [|apply (term_pending_at_least e 1)].
        intros token. apply at_least_weaken. lia.
      - apply (reads_weaken _ _ _ 0 (threshold 1)); [lia | now apply reads_term]. }
    destruct (Hgroup [] [] ["-"%string] eq_refl) as (output & Hrun & Hout).
    rewrite app_nil_r in Hrun, Hout.
    rewrite Hrun. cbn [convert_tokens bind]. rewrite pop_all_app.
    now rewrite Hout. }
  split; [exact Hrpn|].
  unfold evaluate_expression. rewrite Hrpn. cbn [bind]. unfold evaluate_rpn.
  rewrite (evaluate_tokens_term_rpn math_pow e Hok).
  destruct (term_value math_pow e) as [v|err]; reflexivity.
Qed.

Lemma leading_minus_negates_witness :
  evaluate_expression pow_by_multiplication "-(2+3*-4)" = Ok 10%float.
Proof.
  apply (leading_minus_negates pow_by_multiplication
           (Apply Plus (Number "2") (Apply Times (Number "3") (Number "-4"))));
    reflexivity.
Defined.

(** ** A parenthesis that is not closed, and a number after [)-] *)

Lemma paren_then_minus_append (previous : string) (tokens rest : list string) :
  paren_then_minus previous (tokens ++ rest)
  = paren_then_minus previous tokens
    || paren_then_minus (List.last tokens previous) rest.
Proof.
  revert previous; induction tokens as [|token tokens IH]; intros previous.
  - reflexivity.
  - cbn [app paren_then_minus]. now rewrite IH, last_cons, orb_assoc.
Qed.

Lemma evaluate_left_paren (math_pow : float -> float -> result float)
    (v : float) :
  evaluate_tokens math_pow ["("%string] [v] = Ok [].
Proof. reflexivity. Qed.

(** X14.  A left parenthesis that is never closed does not make the conversion
    fail.  For an expression [e] over the five operators whose literals
    [float] reads and whose written form has no operator [-] right after a
    [)], the postfix form of [(e] is that of [e] followed by the token [(],
    which the evaluator takes for an operator that uses up the value and gives
    nothing.  So the evaluation of [(e] raises the [IndexError] of reading the
    empty stack, after any error of [e] itself. *)
Theorem unclosed_paren_empties_stack (math_pow : float -> float -> result float)
    (e : term) :
  literals_ok e = true ->
  minus_after_paren (term_tokens 1 e) = false ->
  infix_to_rpn ("(" ++ term_text e)%string = Ok (term_rpn e ++ ["("%string]) /\
  evaluate_expression math_pow ("(" ++ term_text e)%string
  = (v <- term_value math_pow e ;;
     Raise (IndexError "list index out of range")).
Proof.
  intros Hok Hminus.
  assert (Hrpn : infix_to_rpn ("(" ++ term_text e)%string
                 = Ok (term_rpn e ++ ["("%string])).
  { unfold infix_to_rpn.
    change ("(" ++ term_text e)%string with (join ("("%string :: term_tokens 1 e)).
    rewrite tokenize_string_readable.
    - cbn [bind]. unfold rpn_of_tokens.
      change (convert_tokens ("("%string :: term_tokens 1 e) ([], []))
        with (convert_tokens (term_tokens 1 e) ([], ["("%string])).
      destruct (reads_term e Hok 1 [] [] ["("%string] eq_refl)
        as (output & Hrun & Hout).
      rewrite app_nil_r in Hrun. rewrite Hrun. cbn [convert_tokens bind].
      rewrite pop_all_app, app_assoc. now rewrite Hout.
    - cbn [readable]. apply andb_true_iff. split; [reflexivity|].
      rewrite <- (app_nil_r (term_tokens 1 e)).
      apply (readable_term e Hok); [reflexivity | |].
      + now rewrite app_nil_r, paren_then_minus_start.
      + intros last _ _. reflexivity. }
  split; [exact Hrpn|].
  unfold evaluate_expression. rewrite Hrpn. cbn [bind]. unfold evaluate_rpn.
  rewrite (evaluate_tokens_term_rpn math_pow e Hok).
  destruct (term_value math_pow e) as [v|err]; [|reflexivity].
  cbn [bind]. now rewrite evaluate_left_paren.
Qed.

Lemma unclosed_paren_empties_stack_witness :
  evaluate_expression pow_by_multiplication "(2*(3+4)"
  = Raise (IndexError "list index out of range").
Proof.
  apply (unclosed_paren_empties_stack pow_by_multiplication
           (Apply Times (Number "2") (Apply Plus (Number "3") (Number "4"))));
    reflexivity.
Defined.

(** X15.  After a parenthesised expression, [-] and a numeral are read as one
    signed literal.  For an expression [e] over the five operators whose
    literals [float] reads and whose written form has itself no operator [-]
    right after a [)], and a numeral [n] such that [float] reads [-n], the
    postfix form of [(e)-n] is that of [e] followed by the literal [-n], with
    no operator between them, and the evaluation returns the value of [e]
    alone, the bottom of a stack of two values. *)
Theorem number_after_paren_is_dropped (math_pow : float -> float -> result float)
    (e : term) (n : string) :
  literals_ok e = true ->
  minus_after_paren (term_tokens 1 e) = false ->
  literal (String "-" n) = true ->
  infix_to_rpn ("(" ++ term_text e ++ ")-" ++ n)%string
  = Ok (term_rpn e ++ [String "-" n]) /\
  evaluate_expression math_pow ("(" ++ term_text e ++ ")-" ++ n)%string
  = term_value math_pow e.
Proof.
  intros Hok Hminus Hn.
  set (tokens := ["("%string] ++ term_tokens 1 e ++ [")"%string]).
  assert (Htext : ("(" ++ term_text e ++ ")-" ++ n)%string
                  = join (tokens ++ [String "-" n])).
  { unfold tokens, term_text. rewrite join_snoc. cbn [app join].
    rewrite join_snoc, !append_assoc. reflexivity. }
  assert (Hneg : String.eqb (String "-" n) "-" = false).
  { destruct (literal_parts _ Hn) as [(m & [= <-] & Hne & _)|[_ Hd]];
      [|discriminate Hd].
    apply String.eqb_neq. intros [= ->]. now apply Hne. }
  assert (Hread : readable EmptyString (tokens ++ [String "-" n]) = true).
  { unfold tokens. rewrite <- !app_assoc. cbn [app readable].
    apply andb_true_iff. split; [reflexivity|].
    apply (readable_term e Hok); [reflexivity | |].
    - rewrite paren_then_minus_append, paren_then_minus_start.
      unfold minus_after_paren in Hminus. rewrite Hminus.
      cbn [orb paren_then_minus]. rewrite Hneg.
      now rewrite !andb_false_r.
    - intros last _ _. cbn [readable]. rewrite andb_true_r.
      apply andb_true_iff. split; [reflexivity|].
      unfold comes_after. now rewrite Hn. }
  assert (Hrpn : infix_to_rpn ("(" ++ term_text e ++ ")-" ++ n)%string
                 = Ok (term_rpn e ++ [String "-" n])).
  { unfold infix_to_rpn. rewrite Htext, (tokenize_string_readable _ Hread).
    cbn [bind]. unfold rpn_of_tokens.
    assert (Hgroup : reads tokens 1 [] (term_rpn e)).
    { apply (reads_parenthesized _ (term_pending 1 e) _ 1 0).
      - eapply Forall_impl; [|apply (term_pending_at_least e 1)].
        intros token. apply at_least_weaken. lia.
      - apply (reads_weaken _ _ _ 0 (threshold 1)); [lia | now apply reads_term]. }
    destruct (Hgroup [String "-" n] [] [] eq_refl) as (output & Hrun & Hout).
    rewrite app_nil_r in Hout. cbn [app] in Hout, Hrun. subst output.
    rewrite Hrun. cbn [convert_tokens].
    rewrite (convert_literal _ _ _ Hn). reflexivity. }
  split; [exact Hrpn|].
  unfold evaluate_expression. rewrite Hrpn. cbn [bind]. unfold evaluate_rpn.
  rewrite (evaluate_tokens_term_rpn math_pow e Hok).
  destruct (term_value math_pow e) as [v|err]; [|reflexivity].
  destruct (literal_is_number _ Hn) as [x Hx].
  cbn [bind evaluate_tokens]. unfold evaluate_token. now rewrite Hx.
Qed.

Lemma number_after_paren_is_dropped_witness :
  evaluate_expression pow_by_multiplication "(2*3^2)-100" = Ok 18%float.
Proof.
  apply (number_after_paren_is_dropped pow_by_multiplication
           (Apply Times (Number "2") (Apply Power (Number "3") (Number "2")))
           "100");
    reflexivity.
Defined.
